(** * Condair cloud client: token lifecycle, datapoint parsing, actions

    A shallow embedding of [custom_components/condair/api.py] (class
    [CondairApi]) together with the properties of its token lifecycle,
    datapoint parser and action invoker.

    - JSON documents are the Python values produced by [json.loads]:
      [None], [bool], [int], [float], [str], [list] and [dict].
    - Floats are IEEE-754 binary64 values ([spec_float] with [prec = 53],
      [emax = 1024]); [int] is unbounded ([Z]).
    - Strings are sequences of characters with code points below 256; the
      numeric literals that [int] and [float] accept are those of CPython
      on such strings (the interpreter's optional limit on the number of
      digits of an integer literal is left out).
    - Every method of the client is a computation over the client object
      and the outside world (clock, remote server, request trace, log),
      which either returns a value or raises a Python exception.  A log
      entry keeps the level and the format string of the message.
    - The worlds are those in which a connection to the server can be
      made and the base URL is one that aiohttp can request: a request
      either is refused by aiohttp before anything is written (a header
      value with a line break), or goes out and is answered, or goes out
      and the connection breaks.
    - The humidifier entity, the sensors and the two platform set-ups
      ([humidifier.py], [sensor.py]) are embedded after the client. *)

From Stdlib Require Import ZArith String Ascii List Bool Lia.
From Stdlib Require Import Floats.SpecFloat DecimalString.
From stdpp Require Import base option gmap strings list.

Set Warnings "-register-all".
Local Open Scope Z_scope.
Local Open Scope string_scope.

(** ** Python values and exceptions *)

Inductive pyval : Type :=
| PNone
| PBool (b : bool)
| PInt (z : Z)
| PFloat (f : spec_float)
| PStr (s : string)
| PList (l : list pyval)
| PDict (d : gmap string pyval).

(** The exception classes that the client can meet.  [ClientResponseError]
    is a subclass of [ClientError] (aiohttp); [JSONDecodeError] and
    [UnicodeDecodeError] are subclasses of [ValueError] but are never
    raised inside one of the [except ValueError] blocks of the source. *)
Inductive exn : Type :=
| ClientResponseError
| ClientError
| JSONDecodeError
| UnicodeDecodeError
| ValueError
| TypeError
| OverflowError
| AttributeError
| KeyError.

Inductive result (A : Type) : Type :=
| Ok (a : A)
| Raise (e : exn).
Arguments Ok {A} a.
Arguments Raise {A} e.

Definition is_ClientResponseError (e : exn) : bool :=
  match e with ClientResponseError => true | _ => false end.

(** [except aiohttp.ClientError] also catches [ClientResponseError]. *)
Definition is_ClientError (e : exn) : bool :=
  match e with ClientResponseError | ClientError => true | _ => false end.

Definition is_ValueError (e : exn) : bool :=
  match e with
  | ValueError | JSONDecodeError | UnicodeDecodeError => true
  | _ => false
  end.

(** ** binary64 arithmetic *)

Definition prec64 : Z := 53.
Definition emax64 : Z := 1024.

Definition fadd : spec_float -> spec_float -> spec_float := SFadd prec64 emax64.
Definition fsub : spec_float -> spec_float -> spec_float := SFsub prec64 emax64.
Definition feqb : spec_float -> spec_float -> bool := SFeqb.
Definition fltb : spec_float -> spec_float -> bool := SFltb.
(** [a >= b] on floats: false as soon as one side is NaN. *)
Definition fgeb (a b : spec_float) : bool := SFleb b a.

(** The nearest binary64 to an integer (round half to even). *)
Definition Z2F (z : Z) : spec_float := binary_normalize prec64 emax64 z 0 false.

Definition F1 : spec_float := Eval vm_compute in Z2F 1.
Definition F0 : spec_float := Eval vm_compute in Z2F 0.

(** Conversion of a Python [int] operand in [float + int]: raises
    [OverflowError] when the integer is too large for a float. *)
Definition float_of_int (z : Z) : result spec_float :=
  match Z2F z with
  | S754_infinity _ => Raise OverflowError
  | f => Ok f
  end.

(** [float + int] and [float - int]. *)
Definition fadd_int (a : spec_float) (z : Z) : result spec_float :=
  match float_of_int z with
  | Ok f => Ok (fadd a f)
  | Raise e => Raise e
  end.

Definition fsub_int (a : spec_float) (z : Z) : result spec_float :=
  match float_of_int z with
  | Ok f => Ok (fsub a f)
  | Raise e => Raise e
  end.

(** Truncation toward zero of a float, as [int(x)] does. *)
Definition int_of_float (f : spec_float) : result Z :=
  match f with
  | S754_zero _ => Ok 0
  | S754_nan => Raise ValueError
  | S754_infinity _ => Raise OverflowError
  | S754_finite s m e =>
      let a := match e with
               | Zneg p => Z.shiftr (Zpos m) (Zpos p)
               | _ => Z.shiftl (Zpos m) e
               end in
      Ok (if s then - a else a)
  end.

(** ** Numeric literals in strings *)

(** White space: the ASCII blanks, and the two blanks above 127 that
    [int] and [float] turn into a space before they parse (U+0085 and
    U+00A0). *)
Definition is_space (c : ascii) : bool :=
  let n := nat_of_ascii c in
  (Nat.eqb n 32 || (Nat.leb 9 n && Nat.leb n 13) || Nat.eqb n 133 || Nat.eqb n 160)%bool.

Definition is_digit (c : ascii) : bool :=
  let n := nat_of_ascii c in (Nat.leb 48 n && Nat.leb n 57)%bool.

Definition is_underscore (c : ascii) : bool := Ascii.eqb c "_"%char.

Definition digit_val (c : ascii) : Z := Z.of_nat (nat_of_ascii c) - 48.

Definition lower (c : ascii) : ascii :=
  let n := nat_of_ascii c in
  if (Nat.leb 65 n && Nat.leb n 90)%bool then ascii_of_nat (n + 32) else c.

Fixpoint lstrip (s : list ascii) : list ascii :=
  match s with
  | c :: s' => if is_space c then lstrip s' else s
  | [] => []
  end.

Definition strip (s : list ascii) : list ascii :=
  rev (lstrip (rev (lstrip s))).

(** Removal of the digit separators: an underscore is accepted only between
    two digits. *)
Fixpoint drop_underscores (prev : ascii) (s : list ascii) : option (list ascii) :=
  match s with
  | [] => if is_underscore prev then None else Some []
  | c :: s' =>
      if is_underscore c then
        if is_digit prev then drop_underscores c s' else None
      else if (is_underscore prev && negb (is_digit c))%bool then None
      else option_map (cons c) (drop_underscores c s')
  end.

Fixpoint take_digits (s : list ascii) : list ascii * list ascii :=
  match s with
  | c :: s' =>
      if is_digit c then let '(d, r) := take_digits s' in (c :: d, r)
      else ([], s)
  | [] => ([], [])
  end.

Definition digits_value (ds : list ascii) : Z :=
  fold_left (fun acc c => 10 * acc + digit_val c) ds 0.

(** An optional sign: [true] stands for a minus. *)
Definition take_sign (s : list ascii) : bool * list ascii :=
  match s with
  | "-"%char :: r => (true, r)
  | "+"%char :: r => (false, r)
  | _ => (false, s)
  end.

(** [int(s)] for a string [s], base ten. *)
Definition int_of_str (s : string) : result Z :=
  let '(neg, body) := take_sign (strip (list_ascii_of_string s)) in
  match drop_underscores "000"%char body with
  | None => Raise ValueError
  | Some ds =>
      match take_digits ds with
      | ((_ :: _) as d, []) =>
          let v := digits_value d in Ok (if neg then - v else v)
      | _ => Raise ValueError
      end
  end.

(** The binary64 nearest to [(-1)^neg * m * 10^e]. *)
Definition decimal_to_float (neg : bool) (m e : Z) : spec_float :=
  match m with
  | Zpos p =>
      match e with
      | Zneg q =>
          SFdiv prec64 emax64 (S754_finite neg p 0)
                (S754_finite false (Pos.pow 10 q) 0)
      | _ => binary_normalize prec64 emax64 (if neg then - (m * 10 ^ e) else m * 10 ^ e) 0 false
      end
  | _ => S754_zero neg
  end.

Definition take_exponent (s : list ascii) : option (Z * list ascii) :=
  match s with
  | c :: r =>
      if Ascii.eqb (lower c) "e"%char then
        let '(neg, r') := take_sign r in
        match take_digits r' with
        | ((_ :: _) as d, rest) =>
            let v := digits_value d in Some (if neg then - v else v, rest)
        | _ => None
        end
      else None
  | [] => None
  end.

Definition parse_inf_or_nan (neg : bool) (s : list ascii) : option spec_float :=
  let w := string_of_list_ascii (map lower s) in
  if (String.eqb w "inf" || String.eqb w "infinity")%bool then Some (S754_infinity neg)
  else if String.eqb w "nan" then Some S754_nan
  else None.

Definition parse_decimal (neg : bool) (s : list ascii) : option spec_float :=
  let '(ip, r1) := take_digits s in
  let '(fp, r2) := match r1 with
                   | "."%char :: r => take_digits r
                   | _ => ([], r1)
                   end in
  match (ip ++ fp)%list with
  | [] => None
  | ds =>
      let m := digits_value ds in
      let sh := Z.of_nat (length fp) in
      match r2 with
      | [] => Some (decimal_to_float neg m (- sh))
      | _ =>
          match take_exponent r2 with
          | Some (ex, []) => Some (decimal_to_float neg m (ex - sh))
          | _ => None
          end
      end
  end.

(** [float(s)] for a string [s]. *)
Definition float_of_str (s : string) : result spec_float :=
  match drop_underscores "000"%char (strip (list_ascii_of_string s)) with
  | None => Raise ValueError
  | Some t =>
      let '(neg, body) := take_sign t in
      match parse_decimal neg body with
      | Some f => Ok f
      | None =>
          match parse_inf_or_nan neg body with
          | Some f => Ok f
          | None => Raise ValueError
          end
      end
  end.

(** [str(n)] for an [int]. *)
Definition str_of_int (z : Z) : string := NilZero.string_of_int (Z.to_int z).

(** ** The built-ins applied to JSON values *)

(** [int(v)] *)
Definition py_int (v : pyval) : result Z :=
  match v with
  | PInt z => Ok z
  | PBool b => Ok (if b then 1 else 0)
  | PFloat f => int_of_float f
  | PStr s => int_of_str s
  | PNone | PList _ | PDict _ => Raise TypeError
  end.

(** [float(v)] *)
Definition py_float (v : pyval) : result spec_float :=
  match v with
  | PInt z => float_of_int z
  | PBool b => Ok (if b then F1 else F0)
  | PFloat f => Ok f
  | PStr s => float_of_str s
  | PNone | PList _ | PDict _ => Raise TypeError
  end.

(** Truth value of an object, as tested by [if x] and [not x]. *)
Definition truthy (v : pyval) : bool :=
  match v with
  | PNone => false
  | PBool b => b
  | PInt z => negb (Z.eqb z 0)
  | PFloat (S754_zero _) => false
  | PFloat _ => true
  | PStr s => negb (String.eqb s "")
  | PList l => match l with [] => false | _ => true end
  | PDict d => negb (bool_decide (d = ∅))
  end.

(** [v == s] for a string literal [s]. *)
Definition eq_str (v : pyval) (s : string) : bool :=
  match v with
  | PStr t => String.eqb t s
  | _ => false
  end.

(** [v.get(k, dflt)]: only a [dict] has the method. *)
Definition py_get (v : pyval) (k : string) (dflt : pyval) : result pyval :=
  match v with
  | PDict d => Ok (default dflt (d !! k))
  | _ => Raise AttributeError
  end.

(** [d[k]] on a [dict]. *)
Definition dict_item (d : gmap string pyval) (k : string) : result pyval :=
  match d !! k with
  | Some v => Ok v
  | None => Raise KeyError
  end.

(** [isinstance(v, dict)] and [isinstance(v, list)] *)
Definition isinstance_dict (v : pyval) : bool :=
  match v with PDict _ => true | _ => false end.

Definition isinstance_list (v : pyval) : bool :=
  match v with PList _ => true | _ => false end.

(** [k in v], which the source evaluates after [isinstance(v, dict)]. *)
Definition dict_has (v : pyval) (k : string) : bool :=
  match v with
  | PDict d => bool_decide (is_Some (d !! k))
  | _ => false
  end.

(** [v[k]] where the source has already established that [v] is a dict. *)
Definition py_item (v : pyval) (k : string) : result pyval :=
  match v with
  | PDict d => dict_item d k
  | _ => Raise TypeError
  end.

(** ** The outside world *)

Inductive level : Type := DEBUG | INFO | WARNING | ERROR.

Inductive method : Type := GET | POST.

(** One HTTP request as the session sends it.  [rq_bearer = Some t] stands
    for the header [{"Authorization": "Bearer <t>"}] and [None] for no
    header at all; [rq_json] is the JSON body of a POST. *)
Record request : Type := mkRequest {
  rq_method : method;
  rq_url : string;
  rq_json : option pyval;
  rq_bearer : option pyval
}.

(** What comes back to a request that went out: nothing (the connection
    breaks, which aiohttp raises as a [ClientError]); or a response with
    its status, whether its content type contains [application/json], and
    its body, which is text, read as JSON ([None] when the text is no JSON
    document); or a response with its status whose body is not text in the
    character set of the response, so that both [resp.json()] and
    [resp.text()] raise [UnicodeDecodeError].  An empty JSON body is read
    as [None].  A content type that contains [application/json] without
    being a JSON media type makes [resp.json()] raise [ContentTypeError],
    which is a [ClientResponseError] as that of [raise_for_status]: such a
    response stands among those with a status of 400 or more. *)
Inductive reply : Type :=
| NoReply
| Reply (status : Z) (json_ctype : bool) (body : option pyval)
| Garbled (status : Z).

(** The clock gives the successive readings of [time.time()]; the server
    answers a request knowing the requests sent before it; the trace lists
    the requests that went out to the server, oldest first. *)
Record world : Type := mkWorld {
  w_clock : nat -> spec_float;
  w_server : list request -> request -> reply;
  w_ticks : nat;
  w_trace : list request;
  w_log : list (level * string)
}.

(** ** The client object *)

Inductive session : Type := SessionOpen | SessionClosed.

Record CondairApi : Type := mkCondairApi {
  _session : option session;
  _base_url : string;
  _access_token : pyval;
  _refresh_token : pyval;
  _token_expires_at : spec_float;
  _username : option string;
  _password : option string
}.

(** [CondairApi.__init__] *)
Definition __init__ (session : option session) (base_url : string) : CondairApi :=
  {| _session := session;
     _base_url := base_url;
     _access_token := PNone;
     _refresh_token := PNone;
     _token_expires_at := F0;
     _username := None;
     _password := None |}.

Definition default_base_url : string := "https://hlkc-api-management.azure-api.net".

Definition with_session (x : option session) (s : CondairApi) : CondairApi :=
  {| _session := x; _base_url := _base_url s;
     _access_token := _access_token s; _refresh_token := _refresh_token s;
     _token_expires_at := _token_expires_at s;
     _username := _username s; _password := _password s |}.

Definition with_access_token (x : pyval) (s : CondairApi) : CondairApi :=
  {| _session := _session s; _base_url := _base_url s;
     _access_token := x; _refresh_token := _refresh_token s;
     _token_expires_at := _token_expires_at s;
     _username := _username s; _password := _password s |}.

Definition with_refresh_token (x : pyval) (s : CondairApi) : CondairApi :=
  {| _session := _session s; _base_url := _base_url s;
     _access_token := _access_token s; _refresh_token := x;
     _token_expires_at := _token_expires_at s;
     _username := _username s; _password := _password s |}.

Definition with_token_expires_at (x : spec_float) (s : CondairApi) : CondairApi :=
  {| _session := _session s; _base_url := _base_url s;
     _access_token := _access_token s; _refresh_token := _refresh_token s;
     _token_expires_at := x;
     _username := _username s; _password := _password s |}.

Definition with_credentials (u p : string) (s : CondairApi) : CondairApi :=
  {| _session := _session s; _base_url := _base_url s;
     _access_token := _access_token s; _refresh_token := _refresh_token s;
     _token_expires_at := _token_expires_at s;
     _username := Some u; _password := Some p |}.

(** Truth value of an attribute of type [str | None]. *)
Definition truthy_str (o : option string) : bool :=
  match o with
  | Some s => negb (String.eqb s "")
  | None => false
  end.

(** ** Computations of the client *)

Definition M (A : Type) : Type :=
  CondairApi -> world -> result A * CondairApi * world.

Definition ret {A} (a : A) : M A := fun s w => (Ok a, s, w).

Definition raise {A} (e : exn) : M A := fun s w => (Raise e, s, w).

Definition bind {A B} (m : M A) (k : A -> M B) : M B :=
  fun s w =>
    match m s w with
    | (Ok a, s', w') => k a s' w'
    | (Raise e, s', w') => (Raise e, s', w')
    end.

Notation "'do' x <- c ; k" := (bind c (fun x => k))
  (at level 10, x name, c at level 100, k at level 200).
Notation "c ;; k" := (bind c (fun _ => k))
  (at level 100, k at level 200, right associativity).

(** [try: m except <handled by h>: ...]: the handler runs in the state the
    exception left behind. *)
Definition try_except {A} (m : M A) (h : exn -> option (M A)) : M A :=
  fun s w =>
    match m s w with
    | (Raise e, s', w') =>
        match h e with
        | Some k => k s' w'
        | None => (Raise e, s', w')
        end
    | r => r
    end.

Definition lift {A} (r : result A) : M A :=
  match r with
  | Ok a => ret a
  | Raise e => raise e
  end.

Definition self : M CondairApi := fun s w => (Ok s, s, w).

Definition update (f : CondairApi -> CondairApi) : M unit :=
  fun s w => (Ok tt, f s, w).

(** The three ways the client touches the world. *)
Definition logged (lv : level) (msg : string) (w : world) : world :=
  {| w_clock := w_clock w; w_server := w_server w; w_ticks := w_ticks w;
     w_trace := w_trace w; w_log := w_log w ++ [(lv, msg)] |}.

Definition ticked (w : world) : world :=
  {| w_clock := w_clock w; w_server := w_server w; w_ticks := S (w_ticks w);
     w_trace := w_trace w; w_log := w_log w |}.

Definition sent (rq : request) (w : world) : world :=
  {| w_clock := w_clock w; w_server := w_server w; w_ticks := w_ticks w;
     w_trace := w_trace w ++ [rq]; w_log := w_log w |}.

(** The reading of [time.time()] that comes next. *)
Definition now (w : world) : spec_float := w_clock w (w_ticks w).

(** [_LOGGER.<level>(msg, ...)] *)
Definition log (lv : level) (msg : string) : M unit :=
  fun s w => (Ok tt, s, logged lv msg w).

(** [time.time()] *)
Definition time_time : M spec_float :=
  fun s w => (Ok (now w), s, ticked w).

(** aiohttp refuses to write a header whose value holds a carriage return
    or a line feed.  The value is [f"Bearer {token}"]; only a token that is
    a string can bring a line break into it, since the text of any other
    JSON value writes the line breaks of the strings inside it as escapes. *)
Definition is_line_break (c : ascii) : bool :=
  let n := nat_of_ascii c in (Nat.eqb n 10 || Nat.eqb n 13)%bool.

Definition header_safe (bearer : option pyval) : bool :=
  match bearer with
  | Some (PStr t) => negb (existsb is_line_break (list_ascii_of_string t))
  | _ => true
  end.

(** [session.get(...)] / [session.post(...)]: when the header is refused
    the call raises [ValueError] and nothing goes out; otherwise the
    request leaves the client and the server's answer comes back. *)
Definition send (rq : request) : M reply :=
  fun s w =>
    if header_safe (rq_bearer rq)
    then (Ok (w_server w (w_trace w) rq), s, sent rq w)
    else (Raise ValueError, s, w).

(** Projections of an outcome. *)
Definition res {A} (o : result A * CondairApi * world) : result A := fst (fst o).
Definition obj {A} (o : result A * CondairApi * world) : CondairApi := snd (fst o).
Definition wld {A} (o : result A * CondairApi * world) : world := snd o.

(** Pure computations that may raise. *)
Definition rbind {A B} (r : result A) (k : A -> result B) : result B :=
  match r with
  | Ok a => k a
  | Raise e => Raise e
  end.

Notation "'let?' x := c 'in' k" := (rbind c (fun x => k))
  (at level 10, x name, c at level 100, k at level 200).

(** ** Basic session and request *)

Definition _ensure_session : M unit :=
  do me <- self;
  match _session me with
  | Some SessionOpen => ret tt
  | _ => update (with_session (Some SessionOpen))
  end.

Definition _get_auth_header (me : CondairApi) : option pyval :=
  if truthy (_access_token me) then Some (_access_token me) else None.

Definition url_of (me : CondairApi) (endpoint : string) : string :=
  _base_url me ++ "/" ++ endpoint.

(** After [resp.raise_for_status()] the body is read: by [resp.json()]
    when the content type says JSON, by [resp.text()] otherwise; either
    raises [UnicodeDecodeError] on a body that is no text. *)
Definition _get_request (endpoint : string) : M pyval :=
  _ensure_session ;;
  do me <- self;
  let url := url_of me endpoint in
  log DEBUG "GET %s" ;;
  do resp <- send (mkRequest GET url None (_get_auth_header me));
  match resp with
  | NoReply => raise ClientError
  | Reply status json_ctype body =>
      if (400 <=? status)%Z then raise ClientResponseError
      else if json_ctype then
        match body with
        | Some v => ret v
        | None => raise JSONDecodeError
        end
      else
        log DEBUG "Non-JSON GET response, returning empty dict. Body: %s" ;;
        ret (PDict ∅)
  | Garbled status =>
      if (400 <=? status)%Z then raise ClientResponseError
      else raise UnicodeDecodeError
  end.

Definition _post_request (endpoint : string) (data : pyval) : M pyval :=
  _ensure_session ;;
  do me <- self;
  let url := url_of me endpoint in
  log DEBUG "POST %s\nSending JSON:\n%s" ;;
  do resp <- send (mkRequest POST url (Some data) (_get_auth_header me));
  match resp with
  | NoReply => raise ClientError
  | Reply status json_ctype body =>
      if (400 <=? status)%Z then raise ClientResponseError
      else if json_ctype then
        match body with
        | Some v => ret v
        | None => raise JSONDecodeError
        end
      else
        log DEBUG "Non-JSON POST response, returning empty dict. Body: %s" ;;
        ret (PDict ∅)
  | Garbled status =>
      if (400 <=? status)%Z then raise ClientResponseError
      else raise UnicodeDecodeError
  end.

(** [close_session] *)
Definition close_session : M unit :=
  do me <- self;
  match _session me with
  | Some SessionOpen =>
      update (with_session None) ;;
      log DEBUG "Closed aiohttp session."
  | _ => ret tt
  end.

(** ** Endpoints *)

Definition signin_endpoint : string := "userapi/users/signin".
Definition refresh_endpoint : string := "userapi/users/refresh".
Definition devices_endpoint : string := "api/condair/sensor-instances?pageSize=999".
Definition invoke_endpoint : string := "api/condair/invoke-action".

Definition datapoints_endpoint (unique_id : string) : string :=
  "api/condair/sensor-instances/" ++ unique_id ++ "/latest-datapoint-values".

Definition actions_endpoint (unique_id : string) : string :=
  "api/condair/sensor-instances/" ++ unique_id ++ "/actions".

(** ** Auth *)

(** The lines shared by [authenticate] and [refresh_access_token]:
    [expires_in_str = resp.get("expires_in", "3600")], then [int(...)] with
    [except ValueError: expires_in = 3600]. *)
Definition read_expires_in (resp : pyval) : result Z :=
  let? expires_in_str := py_get resp "expires_in" (PStr "3600") in
  match py_int expires_in_str with
  | Ok n => Ok n
  | Raise e => if is_ValueError e then Ok 3600 else Raise e
  end.

(** [self._token_expires_at = time.time() + expires_in - 30] *)
Definition set_expiry (expires_in : Z) : M unit :=
  do now <- time_time;
  do t <- lift (fadd_int now expires_in);
  do t' <- lift (fsub_int t 30);
  update (with_token_expires_at t').

Definition signin_payload (username password : string) : pyval :=
  PDict {[ "username" := PStr username; "password" := PStr password ]}.

Definition authenticate (username password : string) : M bool :=
  try_except
    (do resp <- _post_request signin_endpoint (signin_payload username password);
     if (isinstance_dict resp && dict_has resp "error")%bool then
       log ERROR "Login failed: %s - %s" ;;
       ret false
     else if (negb (isinstance_dict resp)
              || negb (dict_has resp "access_token")
              || negb (dict_has resp "refresh_token"))%bool then
       log ERROR "Unexpected login response: %s" ;;
       ret false
     else
       do at_ <- lift (py_item resp "access_token");
       update (with_access_token at_) ;;
       do rt <- lift (py_item resp "refresh_token");
       update (with_refresh_token rt) ;;
       update (with_credentials username password) ;;
       do expires_in <- lift (read_expires_in resp);
       set_expiry expires_in ;;
       log INFO "Authenticated! Expires in %s seconds." ;;
       ret true)
    (fun e =>
       if is_ClientResponseError e then
         Some (log ERROR "HTTP error authenticating: %s" ;; ret false)
       else if is_ClientError e then
         Some (log ERROR "Network error authenticating: %s" ;; ret false)
       else None).

Definition refresh_payload (me : CondairApi) : pyval :=
  PDict {[ "refresh_token" := _refresh_token me ]}.

Definition refresh_access_token : M bool :=
  do me <- self;
  if negb (truthy (_refresh_token me)) then
    log ERROR "No refresh token available." ;;
    ret false
  else
    try_except
      (do resp <- _post_request refresh_endpoint (refresh_payload me);
       if (isinstance_dict resp && dict_has resp "error")%bool then
         log ERROR "Refresh token error: %s" ;;
         do me <- self;
         match _username me, _password me with
         | Some u, Some p =>
             if (truthy_str (Some u) && truthy_str (Some p))%bool then
               log WARNING "Trying to re-authenticate." ;;
               authenticate u p
             else
               log ERROR "No username/password to re-authenticate." ;;
               ret false
         | _, _ =>
             log ERROR "No username/password to re-authenticate." ;;
             ret false
         end
       else
         do at_ <- lift (py_get resp "access_token" PNone);
         update (with_access_token at_) ;;
         do rt <- lift (py_get resp "refresh_token" PNone);
         update (with_refresh_token rt) ;;
         do expires_in <- lift (read_expires_in resp);
         set_expiry expires_in ;;
         log INFO "Token refreshed. Expires in %s seconds." ;;
         ret true)
      (fun e =>
         if is_ClientError e then
           Some (log ERROR "Network error refreshing token: %s" ;; ret false)
         else None).

Definition maybe_refresh_token : M bool :=
  do me <- self;
  if negb (truthy (_access_token me)) then
    log WARNING "No access token; must authenticate first." ;;
    ret false
  else
    do now <- time_time;
    do me <- self;
    if fgeb now (_token_expires_at me) then
      log DEBUG "Token expired or expiring soon, refreshing." ;;
      refresh_access_token
    else ret true.

(** ** Data fetching *)

Definition get_devices : M pyval :=
  maybe_refresh_token ;;
  do resp <- _get_request devices_endpoint;
  if (isinstance_dict resp && dict_has resp "data")%bool then
    lift (py_item resp "data")
  else
    log WARNING "Unexpected get_devices response: %s" ;;
    ret (PList []).

(** [numeric_val]: [None] unless [val_str] is not [None] and [float(val_str)]
    succeeds; only [ValueError] is caught. *)
Definition numeric_of (val_str : pyval) : result (option spec_float) :=
  match val_str with
  | PNone => Ok None
  | _ =>
      match py_float val_str with
      | Ok f => Ok (Some f)
      | Raise e => if is_ValueError e then Ok None else Raise e
      end
  end.

(** [numeric_val == 1.0] *)
Definition eq_one (numeric_val : option spec_float) : bool :=
  match numeric_val with
  | Some f => feqb f F1
  | None => false
  end.

(** [numeric_val is not None] and the value stored for [numeric_val]. *)
Definition is_not_none (numeric_val : option spec_float) : bool :=
  match numeric_val with Some _ => true | None => false end.

Definition num (numeric_val : option spec_float) : pyval :=
  match numeric_val with Some f => PFloat f | None => PNone end.

(** One iteration of the loop [for dp in raw_data] of
    [get_latest_datapoints]. *)
Definition parse_datapoint (parsed : gmap string pyval) (dp : pyval)
  : result (gmap string pyval) :=
  let? name := py_get dp "dataPointName" (PStr "") in
  let? val_str := py_get dp "value" PNone in
  let? numeric_val := numeric_of val_str in
  if (eq_str name "Humidity Average" && is_not_none numeric_val)%bool then
    Ok (<["humidity_avg" := num numeric_val]> parsed)
  else if (eq_str name "Temperature Average" && is_not_none numeric_val)%bool then
    Ok (<["temperature_avg" := num numeric_val]> parsed)
  else if (eq_str name "Humidity Reference" && is_not_none numeric_val)%bool then
    Ok (<["target_humidity" := num numeric_val]> parsed)
  else if eq_str name "Area OnOff" then
    Ok (<["is_on" := PBool (eq_one numeric_val)]> parsed)
  else Ok parsed.

Fixpoint parse_datapoints (parsed : gmap string pyval) (raw_data : list pyval)
  : result (gmap string pyval) :=
  match raw_data with
  | [] => Ok parsed
  | dp :: rest =>
      let? parsed' := parse_datapoint parsed dp in
      parse_datapoints parsed' rest
  end.

Definition get_latest_datapoints (unique_id : string) : M (gmap string pyval) :=
  maybe_refresh_token ;;
  do raw_data <- _get_request (datapoints_endpoint unique_id);
  match raw_data with
  | PList l => lift (parse_datapoints ∅ l)
  | _ =>
      log WARNING "Expected a list from latest-datapoint-values, got: %s" ;;
      ret ∅
  end.

(** ** Actions *)

Definition get_actions (unique_id : string) : M (list pyval) :=
  maybe_refresh_token ;;
  do resp <- _get_request (actions_endpoint unique_id);
  match resp with
  | PList l => ret l
  | _ =>
      log WARNING "Expected list from get_actions, got: %s" ;;
      ret []
  end.

Definition invoke_payload (action_id : pyval) (unique_id variable_value : string) : pyval :=
  PDict {[ "actionId" := action_id;
           "uniqueId" := PStr unique_id;
           "variables" :=
             PList [PDict {[ "value" := PStr variable_value;
                             "varName" := PStr "$value$" ]}] ]}.

Definition invoke_action (action_id : pyval) (unique_id variable_value : string) : M bool :=
  maybe_refresh_token ;;
  try_except
    (do resp <- _post_request invoke_endpoint
                  (invoke_payload action_id unique_id variable_value);
     if (isinstance_dict resp && dict_has resp "error")%bool then
       log ERROR "invoke_action returned error: %s" ;;
       ret false
     else ret true)
    (fun e =>
       if is_ClientError e then
         Some (log ERROR "Network error on invoke_action: %s" ;; ret false)
       else None).

(** [next((a for a in actions if a.get("name") == name), None)] *)
Fixpoint next_named (name : string) (actions : list pyval) : result pyval :=
  match actions with
  | [] => Ok PNone
  | a :: rest =>
      let? n := py_get a "name" PNone in
      if eq_str n name then Ok a else next_named name rest
  end.

Definition set_on_off (unique_id : string) (turn_on : bool) : M bool :=
  do actions <- get_actions unique_id;
  do onoff_action <- lift (next_named "Area OnOff" actions);
  if negb (truthy onoff_action) then
    log ERROR "No 'Area OnOff' action found for %s" ;;
    ret false
  else
    do action_id <- lift (py_item onoff_action "id");
    invoke_action action_id unique_id (if turn_on then "1" else "0").

Definition set_humidity_reference (unique_id : string) (humidity : Z) : M bool :=
  do actions <- get_actions unique_id;
  do hr_action <- lift (next_named "Humidity Reference" actions);
  if negb (truthy hr_action) then
    log ERROR "No 'Humidity Reference' action for %s" ;;
    ret false
  else
    do action_id <- lift (py_item hr_action "id");
    invoke_action action_id unique_id (str_of_int humidity).

(** ** Scenarios

    Concrete servers, clocks and client objects on which the client is run. *)

(** A server that answers by URL, whatever was sent before. *)
Definition canned (table : list (string * reply)) : list request -> request -> reply :=
  fun _ rq =>
    match find (fun e => String.eqb (fst e) (rq_url rq)) table with
    | Some e => snd e
    | None => NoReply
    end.

Definition api (endpoint : string) : string := default_base_url ++ "/" ++ endpoint.

Definition json_ok (v : pyval) : reply := Reply 200 true (Some v).

(** The clock reads 1000, 1001, ... seconds. *)
Definition clock0 (n : nat) : spec_float := Z2F (1000 + Z.of_nat n).

Definition world_of (table : list (string * reply)) : world :=
  mkWorld clock0 (canned table) 0 [] [].

(** A client just constructed, and one that holds the given tokens. *)
Definition new_client : CondairApi := __init__ None default_base_url.

Definition holding (access refresh_ : pyval) (expires_at : spec_float)
    (username password : option string) : CondairApi :=
  {| _session := Some SessionOpen; _base_url := default_base_url;
     _access_token := access; _refresh_token := refresh_;
     _token_expires_at := expires_at;
     _username := username; _password := password |}.

Definition tokens_reply : reply :=
  json_ok (PDict {[ "access_token" := PStr "A1"; "refresh_token" := PStr "R1" ]}).

Definition error_reply : reply :=
  json_ok (PDict {[ "error" := PStr "invalid_grant" ]}).

Definition null_expiry_reply : reply :=
  json_ok (PDict {[ "access_token" := PStr "A1"; "refresh_token" := PStr "R1";
                    "expires_in" := PNone ]}).

(** The sign-in endpoint answers with both tokens and ["expires_in": null]. *)
Definition null_expiry_world : world := world_of [(api signin_endpoint, null_expiry_reply)].

(** A client holding stale tokens together with its credentials. *)
Definition stale_with_credentials : CondairApi :=
  holding (PStr "A0") (PStr "R0") F0 (Some "user") (Some "secret").

(** A client holding stale tokens and no credentials. *)
Definition stale_without_credentials : CondairApi :=
  holding (PStr "A0") (PStr "R0") F0 None None.




(** The refresh token is dead, the credentials are still good. *)
Definition dead_refresh_world : world :=
  world_of [(api refresh_endpoint, error_reply);
            (api signin_endpoint, tokens_reply)].

(** Both endpoints answer with an error field. *)
Definition all_errors_world : world :=
  world_of [(api refresh_endpoint, error_reply);
            (api signin_endpoint, error_reply)].

(** The refresh endpoint is down (HTTP 500), sign-in would work. *)
Definition refresh_down_world : world :=
  world_of [(api refresh_endpoint, Reply 500 false None);
            (api signin_endpoint, tokens_reply)].

(** The refresh endpoint answers with a new access token only. *)
Definition access_only_world : world :=
  world_of [(api refresh_endpoint,
             json_ok (PDict {[ "access_token" := PStr "A2" ]}))].

(** The refresh endpoint answers with an empty mapping. *)
Definition empty_refresh_world : world :=
  world_of [(api refresh_endpoint, json_ok (PDict ∅))].

Definition silent_world : world := world_of [].

(** A client whose access token is good until the clock reads 5000. *)
Definition signed_in : CondairApi :=
  holding (PStr "A0") (PStr "R0") (Z2F 5000) (Some "user") (Some "secret").

Definition bath_devices : pyval :=
  PList [PDict {[ "uniqueId" := PStr "A1"; "instanceName" := PStr "Bath" ]}].

(** The device listing of the specification's scenario, and a listing
    without a [data] field. *)
Definition devices_world : world :=
  world_of [(api devices_endpoint, json_ok (PDict {[ "data" := bath_devices ]}))].

Definition no_data_world : world :=
  world_of [(api devices_endpoint, json_ok (PDict ∅))].

(** Whether [dp] is a mapping whose [dataPointName] is [name]. *)
Definition datapoint_named (name : string) (dp : pyval) : bool :=
  match dp with
  | PDict d => eq_str (default (PStr "") (d !! "dataPointName")) name
  | _ => false
  end.

(** Whether [a] is a mapping whose [name] is [name]. *)
Definition action_named (name : string) (a : pyval) : bool :=
  match a with
  | PDict d => eq_str (default PNone (d !! "name")) name
  | _ => false
  end.

(** The binary64 nearest to 45.2, that is [0x1.699999999999ap+5]. *)
Definition F45_2 : spec_float := S754_finite false 6361334473660826 (-47).

(** The datapoints of the specification's scenario. *)
Definition scenario_datapoints : pyval :=
  PList [PDict {[ "dataPointName" := PStr "Humidity Average"; "value" := PStr "45.2" ]};
         PDict {[ "dataPointName" := PStr "Area OnOff"; "value" := PStr "1" ]}].

Definition datapoints_world : world :=
  world_of [(api (datapoints_endpoint "A1"), json_ok scenario_datapoints)].

(** A humidity reading whose value is a JSON array. *)
Definition list_valued_datapoints : pyval :=
  PList [PDict {[ "dataPointName" := PStr "Humidity Average"; "value" := PList [] ]}].

Definition list_value_world : world :=
  world_of [(api (datapoints_endpoint "A1"), json_ok list_valued_datapoints)].

(** An on/off reading whose value is a JSON array, and one whose value is
    the integer 10^400. *)
Definition onoff_list_valued_datapoints : pyval :=
  PList [PDict {[ "dataPointName" := PStr "Area OnOff"; "value" := PList [] ]}].

Definition onoff_list_value_world : world :=
  world_of [(api (datapoints_endpoint "A1"), json_ok onoff_list_valued_datapoints)].

Definition onoff_huge_valued_datapoints : pyval :=
  PList [PDict {[ "dataPointName" := PStr "Area OnOff"; "value" := PInt (10 ^ 400) ]}].

Definition onoff_huge_value_world : world :=
  world_of [(api (datapoints_endpoint "A1"), json_ok onoff_huge_valued_datapoints)].

Definition onoff_action : gmap string pyval :=
  {[ "id" := PStr "act-1"; "name" := PStr "Area OnOff" ]}.

Definition humidity_action : gmap string pyval :=
  {[ "id" := PStr "act-2"; "name" := PStr "Humidity Reference" ]}.

Definition fan_action : gmap string pyval :=
  {[ "id" := PStr "act-9"; "name" := PStr "Fan Speed" ]}.

(** A device with both actions, and a device with neither. *)
Definition actions_world : world :=
  world_of [(api (actions_endpoint "A1"),
             json_ok (PList [PDict fan_action; PDict onoff_action; PDict humidity_action]));
            (api invoke_endpoint, json_ok (PDict ∅))].

Definition no_actions_world : world :=
  world_of [(api (actions_endpoint "A1"), json_ok (PList [PDict fan_action]));
            (api invoke_endpoint, json_ok (PDict ∅))].

(** The mapping rule of the datapoint parser as the specification words it:
    three names stand for numeric fields. *)
Definition numeric_field (name : string) : option string :=
  if String.eqb name "Humidity Average" then Some "humidity_avg"
  else if String.eqb name "Temperature Average" then Some "temperature_avg"
  else if String.eqb name "Humidity Reference" then Some "target_humidity"
  else None.

(** What an entry named [name] with numeric value [nv] does to the snapshot,
    according to the specification. *)
Definition snapshot_update (parsed : gmap string pyval) (name : pyval)
    (nv : option spec_float) : gmap string pyval :=
  match name with
  | PStr n =>
      match numeric_field n with
      | Some field =>
          match nv with
          | Some f => <[field := PFloat f]> parsed
          | None => parsed
          end
      | None =>
          if String.eqb n "Area OnOff" then <["is_on" := PBool (eq_one nv)]> parsed
          else parsed
      end
  | _ => parsed
  end.

(** ** Vocabulary of the properties *)

(** The requests built by [_get_request] and [_post_request]. *)
Definition get_rq (me : CondairApi) (endpoint : string) : request :=
  mkRequest GET (url_of me endpoint) None (_get_auth_header me).

Definition post_rq (me : CondairApi) (endpoint : string) (data : pyval) : request :=
  mkRequest POST (url_of me endpoint) (Some data) (_get_auth_header me).

(** Everything of the client object but its session handle. *)
Definition same_fields (s s' : CondairApi) : Prop :=
  _base_url s' = _base_url s /\
  _access_token s' = _access_token s /\
  _refresh_token s' = _refresh_token s /\
  _token_expires_at s' = _token_expires_at s /\
  _username s' = _username s /\
  _password s' = _password s.

(** The part of the world that the client cannot change, and the clock. *)
Definition same_time (w w' : world) : Prop :=
  w_clock w' = w_clock w /\ w_server w' = w_server w /\ w_ticks w' = w_ticks w.

Definition F30 : spec_float := Eval vm_compute in Z2F 30.

Definition no_token_msg : string := "No access token; must authenticate first.".
Definition expired_msg : string := "Token expired or expiring soon, refreshing.".

(** [quiet m]: running [m] dispatches no request. *)
Definition quiet {A} (m : M A) : Prop :=
  forall s w, w_trace (wld (m s w)) = w_trace w.

(** [grows m]: running [m] only appends to the trace. *)
Definition grows {A} (m : M A) : Prop :=
  forall s w, exists rest, w_trace (wld (m s w)) = (w_trace w ++ rest)%list.

Definition no_onoff_msg : string := "No 'Area OnOff' action found for %s".
Definition no_humidity_msg : string := "No 'Humidity Reference' action for %s".

(** ** Vocabulary of the further properties *)

(** The part of [authenticate] that follows the sign-in POST. *)
Definition after_signin (username password : string) (resp : pyval) : M bool :=
  if (isinstance_dict resp && dict_has resp "error")%bool then
    log ERROR "Login failed: %s - %s" ;;
    ret false
  else if (negb (isinstance_dict resp)
           || negb (dict_has resp "access_token")
           || negb (dict_has resp "refresh_token"))%bool then
    log ERROR "Unexpected login response: %s" ;;
    ret false
  else
    do at_ <- lift (py_item resp "access_token");
    update (with_access_token at_) ;;
    do rt <- lift (py_item resp "refresh_token");
    update (with_refresh_token rt) ;;
    update (with_credentials username password) ;;
    do expires_in <- lift (read_expires_in resp);
    set_expiry expires_in ;;
    log INFO "Authenticated! Expires in %s seconds." ;;
    ret true.

(** The handlers of [authenticate]. *)
Definition signin_handlers (e : exn) : option (M bool) :=
  if is_ClientResponseError e then
    Some (log ERROR "HTTP error authenticating: %s" ;; ret false)
  else if is_ClientError e then
    Some (log ERROR "Network error authenticating: %s" ;; ret false)
  else None.

(** The credentials and the base URL of a client. *)
Definition same_identity (s s' : CondairApi) : Prop :=
  _base_url s' = _base_url s /\
  _username s' = _username s /\
  _password s' = _password s.

(** [sends_at_most n m]: running [m] appends at most [n] requests to the
    trace. *)
Definition sends_at_most (n : nat) {A} (m : M A) : Prop :=
  forall s w, exists rest,
    w_trace (wld (m s w)) = (w_trace w ++ rest)%list /\ (length rest <= n)%nat.

(** [confines m]: no [ClientError] leaves [m]. *)
Definition confines {A} (m : M A) : Prop :=
  forall s w e, res (m s w) = Raise e -> is_ClientError e = false.

(** The part of [refresh_access_token] that follows the refresh POST, and
    its handler. *)
Definition after_refresh (resp : pyval) : M bool :=
  if (isinstance_dict resp && dict_has resp "error")%bool then
    log ERROR "Refresh token error: %s" ;;
    do me <- self;
    match _username me, _password me with
    | Some u, Some p =>
        if (truthy_str (Some u) && truthy_str (Some p))%bool then
          log WARNING "Trying to re-authenticate." ;;
          authenticate u p
        else
          log ERROR "No username/password to re-authenticate." ;;
          ret false
    | _, _ =>
        log ERROR "No username/password to re-authenticate." ;;
        ret false
    end
  else
    do at_ <- lift (py_get resp "access_token" PNone);
    update (with_access_token at_) ;;
    do rt <- lift (py_get resp "refresh_token" PNone);
    update (with_refresh_token rt) ;;
    do expires_in <- lift (read_expires_in resp);
    set_expiry expires_in ;;
    log INFO "Token refreshed. Expires in %s seconds." ;;
    ret true.

Definition refresh_handlers (e : exn) : option (M bool) :=
  if is_ClientError e then
    Some (log ERROR "Network error refreshing token: %s" ;; ret false)
  else None.

(** What the three token operations have in common: the base URL and the
    credentials are kept, a [False] leaves tokens and expiry as they were,
    and no [ClientError] comes out. *)
Definition careful (m : M bool) : Prop :=
  forall s w,
    let o := m s w in
    same_identity s (obj o) /\
    (res o = Ok false -> same_fields s (obj o)) /\
    (forall e, res o = Raise e -> is_ClientError e = false).

(** [keeps_identity m]: running [m] keeps the base URL and the credentials. *)
Definition keeps_identity {A} (m : M A) : Prop :=
  forall s w, same_identity s (obj (m s w)).

(** What the dispatcher makes of the server's answer. *)
Definition read_reply (r : reply) : result pyval :=
  match r with
  | NoReply => Raise ClientError
  | Reply status json_ctype body =>
      if (400 <=? status)%Z then Raise ClientResponseError
      else if json_ctype then
        match body with
        | Some v => Ok v
        | None => Raise JSONDecodeError
        end
      else Ok (PDict ∅)
  | Garbled status =>
      if (400 <=? status)%Z then Raise ClientResponseError
      else Raise UnicodeDecodeError
  end.

(** The refresh token never works, and the sign-in hands out tokens that
    are already past their margin ([expires_in] is 0). *)
Definition short_lived_world : world :=
  world_of [(api refresh_endpoint, error_reply);
            (api signin_endpoint,
             json_ok (PDict {[ "access_token" := PStr "A1";
                               "refresh_token" := PStr "R1";
                               "expires_in" := PStr "0" ]}));
            (api (actions_endpoint "A1"), json_ok (PList [PDict onoff_action]));
            (api invoke_endpoint, json_ok (PDict ∅))].

(** Every endpoint answers 200 with a plain-text body. *)
Definition plain_text_server (_ : list request) (_ : request) : reply :=
  Reply 200 false None.

Definition plain_text_world : world := mkWorld clock0 plain_text_server 0 [] [].

(** Every answer is a 200 whose body is not text in its character set. *)
Definition garbled_server (_ : list request) (_ : request) : reply := Garbled 200.

Definition garbled_world : world := mkWorld clock0 garbled_server 0 [] [].

(** Every endpoint answers HTTP 503. *)
Definition unavailable_server (_ : list request) (_ : request) : reply :=
  Reply 503 true (Some (PDict ∅)).

Definition unavailable_world : world := mkWorld clock0 unavailable_server 0 [] [].

(** The fields a snapshot may hold: three floats and one boolean. *)
Definition snapshot_field (k : string) (v : pyval) : Prop :=
  ((k = "humidity_avg" \/ k = "temperature_avg" \/ k = "target_humidity") /\
   exists f, v = PFloat f) \/
  (k = "is_on" /\ exists b, v = PBool b).

Definition well_shaped (snap : gmap string pyval) : Prop :=
  forall k v, snap !! k = Some v -> snapshot_field k v.

(** A datapoint value that is [None], a string, a boolean, a float, or an
    integer within the range of a float. *)
Definition scalar_value (v : pyval) : Prop :=
  match v with
  | PNone | PStr _ | PBool _ | PFloat _ => True
  | PInt z => exists f, float_of_int z = Ok f
  | PList _ | PDict _ => False
  end.

(** A datapoint entry that is a mapping with such a value, or with none. *)
Definition plain_entry (dp : pyval) : Prop :=
  match dp with
  | PDict d => scalar_value (default PNone (d !! "value"))
  | _ => False
  end.

(** Readings given as JSON numbers, booleans and [null], with one value
    that is no number at all. *)
Definition mixed_datapoints : list pyval :=
  [PDict {[ "dataPointName" := PStr "Temperature Average"; "value" := PInt 21 ]};
   PDict {[ "dataPointName" := PStr "Humidity Average"; "value" := PStr "n/a" ]};
   PDict {[ "dataPointName" := PStr "Humidity Reference"; "value" := PNone ]};
   PDict {[ "dataPointName" := PStr "Area OnOff"; "value" := PBool true ]};
   PDict {[ "dataPointName" := PStr "Fan Speed"; "value" := PStr "3" ]}].

Definition mixed_world : world :=
  world_of [(api (datapoints_endpoint "A1"), json_ok (PList mixed_datapoints))].

(** ** The humidifier entity ([humidifier.py])

    [CondairHumidifierEntity] keeps the state that the host shows and drives
    the client.  A [datetime] is the number of microseconds since
    [datetime.min]; each method reads [datetime.now()] at most once, and
    that reading is the argument [now_]. *)

Module Humidifier.

Record entity : Type := mkEntity {
  _unique_id : string;
  _device_name : string;
  _is_on : pyval;
  _current_humidity : Z;
  _target_humidity : Z;
  _last_set_humidity : Z;
  _current_temp : option spec_float;
  _last_update : Z
}.

(** [UPDATE_COOLDOWN = 30] seconds, as a [timedelta]. *)
Definition UPDATE_COOLDOWN : Z := 30.
Definition cooldown : Z := UPDATE_COOLDOWN * 1000000.

(** [CondairHumidifierEntity.__init__] *)
Definition init (unique_id device_name : string) : entity :=
  {| _unique_id := unique_id; _device_name := device_name;
     _is_on := PBool false; _current_humidity := 0;
     _target_humidity := 50; _last_set_humidity := 50;
     _current_temp := None; _last_update := 0 |}.

Definition with_is_on (x : pyval) (me : entity) : entity :=
  {| _unique_id := _unique_id me; _device_name := _device_name me;
     _is_on := x; _current_humidity := _current_humidity me;
     _target_humidity := _target_humidity me;
     _last_set_humidity := _last_set_humidity me;
     _current_temp := _current_temp me; _last_update := _last_update me |}.

Definition with_current_humidity (x : Z) (me : entity) : entity :=
  {| _unique_id := _unique_id me; _device_name := _device_name me;
     _is_on := _is_on me; _current_humidity := x;
     _target_humidity := _target_humidity me;
     _last_set_humidity := _last_set_humidity me;
     _current_temp := _current_temp me; _last_update := _last_update me |}.

Definition with_target_humidity (x : Z) (me : entity) : entity :=
  {| _unique_id := _unique_id me; _device_name := _device_name me;
     _is_on := _is_on me; _current_humidity := _current_humidity me;
     _target_humidity := x;
     _last_set_humidity := _last_set_humidity me;
     _current_temp := _current_temp me; _last_update := _last_update me |}.

Definition with_last_set_humidity (x : Z) (me : entity) : entity :=
  {| _unique_id := _unique_id me; _device_name := _device_name me;
     _is_on := _is_on me; _current_humidity := _current_humidity me;
     _target_humidity := _target_humidity me;
     _last_set_humidity := x;
     _current_temp := _current_temp me; _last_update := _last_update me |}.

Definition with_current_temp (x : option spec_float) (me : entity) : entity :=
  {| _unique_id := _unique_id me; _device_name := _device_name me;
     _is_on := _is_on me; _current_humidity := _current_humidity me;
     _target_humidity := _target_humidity me;
     _last_set_humidity := _last_set_humidity me;
     _current_temp := x; _last_update := _last_update me |}.

Definition with_last_update (x : Z) (me : entity) : entity :=
  {| _unique_id := _unique_id me; _device_name := _device_name me;
     _is_on := _is_on me; _current_humidity := _current_humidity me;
     _target_humidity := _target_humidity me;
     _last_set_humidity := _last_set_humidity me;
     _current_temp := _current_temp me; _last_update := x |}.

(** Computations of an entity: the entity, the client it shares and the
    world are threaded; an exception leaves all three as they are at the
    point where it is raised. *)
Definition EM (A : Type) : Type :=
  entity -> CondairApi -> world -> result A * entity * CondairApi * world.

Definition eret {A} (a : A) : EM A := fun me s w => (Ok a, me, s, w).

Definition ebind {A B} (m : EM A) (k : A -> EM B) : EM B :=
  fun me s w =>
    match m me s w with
    | (Ok a, me', s', w') => k a me' s' w'
    | (Raise e, me', s', w') => (Raise e, me', s', w')
    end.

(** A call of the client. *)
Definition api_call {A} (m : M A) : EM A :=
  fun me s w => let '(r, s', w') := m s w in (r, me, s', w').

Definition this : EM entity := fun me s w => (Ok me, me, s, w).

Definition assign (f : entity -> entity) : EM unit :=
  fun me s w => (Ok tt, f me, s, w).

Notation "'edo' x <- c ; k" := (ebind c (fun x => k))
  (at level 10, x name, c at level 100, k at level 200).
Notation "c ;;; k" := (ebind c (fun _ => k))
  (at level 100, k at level 200, right associativity).

Definition when (c : bool) (m : EM unit) : EM unit := if c then m else eret tt.

Definition has_key (data : gmap string pyval) (k : string) : bool :=
  bool_decide (is_Some (data !! k)).

(** The statements of [async_update] under [if "target_humidity" in data]. *)
Definition update_target (data : gmap string pyval) : EM unit :=
  edo v <- api_call (lift (dict_item data "target_humidity"));
  edo target_humidity <- api_call (lift (py_int v));
  edo me <- this;
  if truthy (_is_on me) then
    assign (with_target_humidity target_humidity) ;;;
    assign (with_last_set_humidity target_humidity)
  else if (target_humidity =? 0)%Z then
    api_call (log DEBUG "Retaining last set humidity %s for %s as the device is off.")
  else
    assign (with_target_humidity target_humidity).

(** The statements of [async_update] that follow the fetch. *)
Definition apply_snapshot (data : gmap string pyval) : EM unit :=
  when (has_key data "is_on")
    (edo v <- api_call (lift (dict_item data "is_on"));
     assign (with_is_on v)) ;;;
  when (has_key data "target_humidity") (update_target data) ;;;
  when (has_key data "humidity_avg")
    (edo v <- api_call (lift (dict_item data "humidity_avg"));
     edo n <- api_call (lift (py_int v));
     assign (with_current_humidity n)) ;;;
  when (has_key data "temperature_avg")
    (edo v <- api_call (lift (dict_item data "temperature_avg"));
     edo f <- api_call (lift (py_float v));
     assign (with_current_temp (Some f))).

(** [async_update] *)
Definition async_update (now_ : Z) : EM unit :=
  edo me <- this;
  if (now_ - _last_update me <? cooldown)%Z then
    api_call (log DEBUG "Skipping update for %s due to cooldown. Last update was at %s.")
  else
    edo data <- api_call (get_latest_datapoints (_unique_id me));
    apply_snapshot data.

(** [async_turn_on]; [now_] is read only after a success. *)
Definition async_turn_on (now_ : Z) : EM unit :=
  edo me <- this;
  edo success <- api_call (set_on_off (_unique_id me) true);
  when success
    (assign (with_is_on (PBool true)) ;;;
     edo me <- this;
     assign (with_target_humidity (_last_set_humidity me)) ;;;
     assign (with_last_update now_)).

(** [async_turn_off] *)
Definition async_turn_off (now_ : Z) : EM unit :=
  edo me <- this;
  edo success <- api_call (set_on_off (_unique_id me) false);
  when success
    (assign (with_is_on (PBool false)) ;;;
     assign (with_last_update now_)).

(** [async_set_humidity] *)
Definition async_set_humidity (humidity : Z) (now_ : Z) : EM unit :=
  edo me <- this;
  edo success <- api_call (set_humidity_reference (_unique_id me) humidity);
  when success
    (assign (with_target_humidity humidity) ;;;
     assign (with_last_set_humidity humidity) ;;;
     assign (with_last_update now_)).

(** Projections of an outcome. *)
Definition eres {A} (o : result A * entity * CondairApi * world) : result A :=
  fst (fst (fst o)).
Definition eent {A} (o : result A * entity * CondairApi * world) : entity :=
  snd (fst (fst o)).
Definition eapi {A} (o : result A * entity * CondairApi * world) : CondairApi :=
  snd (fst o).
Definition ewld {A} (o : result A * entity * CondairApi * world) : world :=
  snd o.

(** The three commands of the entity, and the call of the client that each
    one makes. *)
Inductive command : Type := TurnOn | TurnOff | SetHumidity (humidity : Z).

Definition perform (c : command) (now_ : Z) : EM unit :=
  match c with
  | TurnOn => async_turn_on now_
  | TurnOff => async_turn_off now_
  | SetHumidity humidity => async_set_humidity humidity now_
  end.

Definition client_call (c : command) (me : entity) : M bool :=
  match c with
  | TurnOn => set_on_off (_unique_id me) true
  | TurnOff => set_on_off (_unique_id me) false
  | SetHumidity humidity => set_humidity_reference (_unique_id me) humidity
  end.

(** [stays_off me me']: [me'] is reached from [me] by calls of
    [async_turn_off] and by polls that leave the entity off, each with any
    clock reading and in any state of the client and the world. *)
Inductive stays_off : entity -> entity -> Prop :=
| stays_off_here me : stays_off me me
| stays_off_poll me now_ s w me' :
    truthy (_is_on (eent (async_update now_ me s w))) = false ->
    stays_off (eent (async_update now_ me s w)) me' ->
    stays_off me me'
| stays_off_turn_off me now_ s w me' :
    stays_off (eent (async_turn_off now_ me s w)) me' ->
    stays_off me me'.

(** A float that is neither an infinity nor a NaN. *)
Definition finite (f : spec_float) : bool :=
  match f with
  | S754_zero _ | S754_finite _ _ _ => true
  | S754_infinity _ | S754_nan => false
  end.

(** A device that is switched off and reports a target of 0, behind a
    server that accepts every action. *)
Definition off_datapoints : pyval :=
  PList [PDict {[ "dataPointName" := PStr "Area OnOff"; "value" := PStr "0" ]};
         PDict {[ "dataPointName" := PStr "Humidity Reference"; "value" := PStr "0" ]};
         PDict {[ "dataPointName" := PStr "Humidity Average"; "value" := PStr "45.2" ]}].

Definition off_world : world :=
  world_of [(api (actions_endpoint "A1"),
             json_ok (PList [PDict onoff_action; PDict humidity_action]));
            (api invoke_endpoint, json_ok (PDict ∅));
            (api (datapoints_endpoint "A1"), json_ok off_datapoints)].

(** The entity of that device after a target of 45 was set at second 100,
    after it was then switched off at second 200, and after it was then
    polled at second 300. *)
Definition bath : entity := init "A1" "Bath".
Definition bath_set : entity :=
  eent (async_set_humidity 45 100000000 bath signed_in off_world).
Definition bath_off : entity :=
  eent (async_turn_off 200000000 bath_set signed_in off_world).
Definition bath_polled : entity :=
  eent (async_update 300000000 bath_off signed_in off_world).

(** A device whose reference reads as a NaN. *)
Definition nan_world : world :=
  world_of [(api (datapoints_endpoint "A1"),
             json_ok (PList [PDict {[ "dataPointName" := PStr "Humidity Reference";
                                      "value" := PStr "nan" ]}]))].

End Humidifier.

(** ** Iteration and keys

    The elements that [for x in v] visits.  A mapping yields its keys and a
    string its characters, all of them strings; the loops of this program
    fail on the first string they meet, so the order of a mapping's keys,
    which a [gmap] does not record, plays no part. *)
Definition py_iter (v : pyval) : result (list pyval) :=
  match v with
  | PList l => Ok l
  | PDict d => Ok (map (fun kv => PStr (fst kv)) (map_to_list d))
  | PStr s => Ok (map (fun c => PStr (String c EmptyString)) (list_ascii_of_string s))
  | PNone | PBool _ | PInt _ | PFloat _ => Raise TypeError
  end.

(** Lists and mappings cannot be keys of a [dict]. *)
Definition hashable (v : pyval) : bool :=
  match v with
  | PList _ | PDict _ => false
  | _ => true
  end.

(** The number that a boolean, an integer or a float stands for:
    [Finite m e] is [m * 2^e]. *)
Inductive number : Type :=
| Finite (m e : Z)
| Infinite (negative : bool)
| NotANumber.

Definition number_of_value (v : pyval) : option number :=
  match v with
  | PBool b => Some (Finite (if b then 1 else 0) 0)
  | PInt z => Some (Finite z 0)
  | PFloat (S754_zero _) => Some (Finite 0 0)
  | PFloat (S754_finite s m e) => Some (Finite (if s then Zneg m else Zpos m) e)
  | PFloat (S754_infinity s) => Some (Infinite s)
  | PFloat S754_nan => Some NotANumber
  | PNone | PStr _ | PList _ | PDict _ => None
  end.

(** Numbers are compared exactly.  The JSON decoder returns one and the
    same object for every [NaN] it reads, and a [dict] takes identical
    objects for the same key. *)
Definition same_number (a b : number) : bool :=
  match a, b with
  | Finite m1 e1, Finite m2 e2 =>
      let k := Z.min e1 e2 in
      (m1 * 2 ^ (e1 - k) =? m2 * 2 ^ (e2 - k))%Z
  | Infinite s1, Infinite s2 => Bool.eqb s1 s2
  | NotANumber, NotANumber => true
  | _, _ => false
  end.

(** Whether two hashable values are the same key of a [dict]. *)
Definition same_key (a b : pyval) : bool :=
  match a, b with
  | PNone, PNone => true
  | PStr s, PStr t => String.eqb s t
  | _, _ =>
      match number_of_value a, number_of_value b with
      | Some x, Some y => same_number x y
      | _, _ => false
      end
  end.

(** ** Parent instances *)

Definition parents_endpoint : string := "/api/condair/sensor-instances?pageSize=999".

(** [k in d] for a [dict] kept as the list of its items in insertion order. *)
Definition key_in (k : pyval) (d : list (pyval * pyval)) : result bool :=
  if hashable k then Ok (existsb (fun kv => same_key k (fst kv)) d)
  else Raise TypeError.

(** The body of the loop of [get_parent_instances]. *)
Definition group_parent (device : pyval) (parent_instances : list (pyval * pyval))
    : result (list (pyval * pyval)) :=
  let? parent_instance_number := py_get device "parentSerialNumber" PNone in
  let? parent_instance_name := py_get device "parentInstanceName" PNone in
  let? present := key_in parent_instance_number parent_instances in
  if negb present then
    Ok (parent_instances ++
        [(parent_instance_number,
          PDict {[ "parentInstanceNumber" := parent_instance_number;
                   "parentInstanceName" := parent_instance_name ]})])%list
  else Ok parent_instances.

Fixpoint group_parents (devices : list pyval) (parent_instances : list (pyval * pyval))
    : result (list (pyval * pyval)) :=
  match devices with
  | [] => Ok parent_instances
  | device :: rest =>
      let? parent_instances' := group_parent device parent_instances in
      group_parents rest parent_instances'
  end.

(** [get_parent_instances] *)
Definition get_parent_instances : M (list pyval) :=
  do response <- _get_request parents_endpoint;
  do devices <- lift (py_iter response);
  do parent_instances <- lift (group_parents devices []);
  ret (map snd parent_instances).

(** The [parentInstanceNumber] of an element of the result. *)
Definition number_of (p : pyval) : pyval :=
  match p with
  | PDict d => default PNone (d !! "parentInstanceNumber")
  | _ => PNone
  end.

(** No two elements stand for the same parent. *)
Definition distinct_parents (l : list pyval) : Prop :=
  ForallOrdPairs (fun p q => same_key (number_of p) (number_of q) = false) l.

(** The items kept by the loop: each value records its key, and no two
    keys are the same. *)
Definition grouped (al : list (pyval * pyval)) : Prop :=
  Forall (fun kv => number_of (snd kv) = fst kv) al /\
  ForallOrdPairs (fun a b => same_key (fst a) (fst b) = false) al.

Definition covers (al : list (pyval * pyval)) (device : pyval) : Prop :=
  forall k, py_get device "parentSerialNumber" PNone = Ok k ->
            exists kv, In kv al /\ same_key k (fst kv) = true.

(** Three devices of two households; the serial number of the first
    household comes once as an integer and once as a float. *)
Definition household_devices : list pyval :=
  [PDict {[ "uniqueId" := PStr "A1"; "parentSerialNumber" := PInt 7;
            "parentInstanceName" := PStr "Home" ]};
   PDict {[ "uniqueId" := PStr "B2"; "parentSerialNumber" := PStr "9";
            "parentInstanceName" := PStr "Cabin" ]};
   PDict {[ "uniqueId" := PStr "C3"; "parentSerialNumber" := PFloat (Z2F 7);
            "parentInstanceName" := PStr "Home again" ]}].

Definition households : list pyval :=
  [PDict {[ "parentInstanceNumber" := PInt 7; "parentInstanceName" := PStr "Home" ]};
   PDict {[ "parentInstanceNumber" := PStr "9"; "parentInstanceName" := PStr "Cabin" ]}].

Definition households_world : world :=
  world_of [(api parents_endpoint, json_ok (PList household_devices))].

(** The same listing in the envelope that [get_devices] expects. *)
Definition enveloped_households_world : world :=
  world_of [(api parents_endpoint,
             json_ok (PDict {[ "data" := PList household_devices ]}))].

(** ** The platforms ([sensor.py], [humidifier.py])

    The two [async_setup_entry] functions list the devices and decide, for
    each one, which entities to hand to the host. *)

Module Platforms.

Definition is_not_None (v : pyval) : bool :=
  match v with PNone => false | _ => true end.

Inductive sensor_class : Type := CondairTemperatureSensor | CondairHumiditySensor.

(** A sensor entity: its class, the two constructor arguments it keeps, and
    the value it shows. *)
Record sensor : Type := mkSensor {
  class_of : sensor_class;
  _unique_id : pyval;
  _device_name : pyval;
  native_value : pyval
}.

(** [CondairTemperatureSensor(api, unique_id, device_name)] and
    [CondairHumiditySensor(api, unique_id, device_name)] *)
Definition new_sensor (c : sensor_class) (unique_id device_name : pyval) : sensor :=
  mkSensor c unique_id device_name PNone.

(** The key of the snapshot that a sensor of each class reads. *)
Definition snapshot_key (c : sensor_class) : string :=
  match c with
  | CondairTemperatureSensor => "temperature_avg"
  | CondairHumiditySensor => "humidity_avg"
  end.

(** [for x in l: acc = body(x, acc)] *)
Fixpoint for_each {S : Type} (body : pyval -> S -> M S) (l : list pyval) (acc : S) : M S :=
  match l with
  | [] => ret acc
  | x :: rest => do acc' <- body x acc; for_each body rest acc'
  end.

Section Rendering.

(** The text that an f-string puts for a value that is not a string. *)
Variable render : pyval -> string.

(** [f"{v}"] *)
Definition format_value (v : pyval) : string :=
  match v with
  | PStr s => s
  | _ => render v
  end.

(** The [async_update] of both sensor classes. *)
Definition sensor_update (x : sensor) : M sensor :=
  do data <- get_latest_datapoints (format_value (_unique_id x));
  ret (mkSensor (class_of x) (_unique_id x) (_device_name x)
         (default PNone (data !! snapshot_key (class_of x)))).

(** The body of the loop of [sensor.async_setup_entry]; the list is
    [sensor_entities]. *)
Definition add_sensors (device : pyval) (sensor_entities : list sensor) : M (list sensor) :=
  do unique_id <- lift (py_get device "uniqueId" PNone);
  do device_name <- lift (py_get device "instanceName" (PStr "Unnamed Device"));
  if negb (truthy unique_id) then
    log WARNING "Device %s missing uniqueId; skipping sensors." ;;
    ret sensor_entities
  else
    try_except
      (do datapoints <- get_latest_datapoints (format_value unique_id);
       do t <- lift (dict_item datapoints "temperature_avg");
       let has_temp := is_not_None t in
       do h <- lift (dict_item datapoints "humidity_avg");
       let has_humidity := is_not_None h in
       if (negb has_temp && negb has_humidity)%bool then
         log INFO "Device %s has no temperature or humidity data points; skipping." ;;
         ret sensor_entities
       else
         ret (sensor_entities
              ++ (if has_temp
                  then [new_sensor CondairTemperatureSensor unique_id device_name]
                  else [])
              ++ (if has_humidity
                  then [new_sensor CondairHumiditySensor unique_id device_name]
                  else []))%list)
      (fun _ =>
         Some (log ERROR "Error fetching datapoints for device %s: %s" ;;
               ret sensor_entities)).

(** [sensor.async_setup_entry]; the result is the list handed to
    [async_add_entities]. *)
Definition sensor_setup : M (list sensor) :=
  do devices <- get_devices;
  do l <- lift (py_iter devices);
  do sensor_entities <- for_each add_sensors l [];
  (match sensor_entities with
   | _ :: _ => log INFO "Adding %d sensor entities."
   | [] => log WARNING "No sensor entities added; no valid devices found."
   end) ;;
  ret sensor_entities.

(** The body of the loop of [humidifier.async_setup_entry]; an element of
    the list is the pair of arguments [unique_id, device_name] of a call of
    the [CondairHumidifierEntity] constructor. *)
Definition add_humidifier (device : pyval) (entities : list (pyval * pyval))
    : M (list (pyval * pyval)) :=
  do unique_id <- lift (py_get device "uniqueId" PNone);
  do device_name <- lift (py_get device "instanceName" (PStr "Unnamed Humidifier"));
  if negb (truthy unique_id) then
    log WARNING "Device %s has no uniqueId; skipping humidifier entity." ;;
    ret entities
  else
    try_except
      (do actions <- get_actions (format_value unique_id);
       if negb (truthy (PList actions)) then
         log INFO "Device %s has no actions available; skipping." ;;
         ret entities
       else
         ret (entities ++ [(unique_id, device_name)])%list)
      (fun _ =>
         Some (log ERROR "Error fetching actions for device %s: %s" ;;
               ret entities)).

(** [humidifier.async_setup_entry] *)
Definition humidifier_setup : M (list (pyval * pyval)) :=
  do devices <- get_devices;
  do l <- lift (py_iter devices);
  do entities <- for_each add_humidifier l [];
  (match entities with
   | _ :: _ => log INFO "Adding %d humidifier entities."
   | [] => log WARNING "No humidifier entities added; no valid devices found."
   end) ;;
  ret entities.

End Rendering.

(** Whether a fetch gave a snapshot with both readings. *)
Definition complete (r : result (gmap string pyval)) : bool :=
  match r with
  | Ok data =>
      (bool_decide (is_Some (data !! "temperature_avg")) &&
       bool_decide (is_Some (data !! "humidity_avg")))%bool
  | Raise _ => false
  end.

(** Sensors come in pairs: a temperature sensor and then a humidity sensor
    of the same device. *)
Inductive paired : list sensor -> Prop :=
| paired_nil : paired []
| paired_cons unique_id device_name l :
    paired l ->
    paired (new_sensor CondairTemperatureSensor unique_id device_name ::
            new_sensor CondairHumiditySensor unique_id device_name :: l).

(** A value whose iteration visits mappings only. *)
Definition mappings (devices : pyval) : Prop :=
  exists l, py_iter devices = Ok l /\ Forall (fun d => isinstance_dict d = true) l.

(** Texts for the values that are no strings, as far as the scenarios need
    them. *)
Definition render0 (v : pyval) : string :=
  match v with
  | PInt z => str_of_int z
  | _ => "?"
  end.

(** Two devices: the first reports a temperature and a humidity, the second
    a humidity only. *)
Definition two_devices : pyval :=
  PList [PDict {[ "uniqueId" := PStr "A1"; "instanceName" := PStr "Bath" ]};
         PDict {[ "uniqueId" := PStr "B2"; "instanceName" := PStr "Hall" ]}].

Definition two_devices_world : world :=
  world_of
    [(api devices_endpoint, json_ok (PDict {[ "data" := two_devices ]}));
     (api (datapoints_endpoint "A1"),
      json_ok (PList [PDict {[ "dataPointName" := PStr "Temperature Average";
                               "value" := PStr "21" ]};
                      PDict {[ "dataPointName" := PStr "Humidity Average";
                               "value" := PStr "45.2" ]}]));
     (api (datapoints_endpoint "B2"),
      json_ok (PList [PDict {[ "dataPointName" := PStr "Humidity Average";
                               "value" := PStr "45.2" ]}]));
     (api (actions_endpoint "A1"), json_ok (PList [PDict onoff_action]))].

(** A listing whose [data] field is a mapping, not a list. *)
Definition wrapped_listing_world : world :=
  world_of
    [(api devices_endpoint,
      json_ok (PDict {[ "data" := PDict {[ "items" := two_devices ]} ]}))].

End Platforms.

(** * Properties of the client *)

Local Open Scope list_scope.

(** Symbolic execution of the monadic glue, leaving the methods folded. *)
Ltac run :=
  cbv beta iota zeta delta
    [bind ret raise lift try_except self update log time_time send
     res obj wld fst snd negb].

Lemma dict_has_Some (d : gmap string pyval) k v :
  d !! k = Some v -> dict_has (PDict d) k = true.
Proof. intros H. unfold dict_has. apply bool_decide_eq_true. eauto. Qed.

Lemma dict_has_None (d : gmap string pyval) k :
  d !! k = None -> dict_has (PDict d) k = false.
Proof.
  intros H. unfold dict_has. apply bool_decide_eq_false.
  rewrite H. intros [v Hv]. discriminate.
Qed.

Lemma dict_has_is_Some (d : gmap string pyval) k :
  is_Some (d !! k) -> dict_has (PDict d) k = true.
Proof. intros [v H]. eapply dict_has_Some; eauto. Qed.

(** ** The request dispatcher *)

Lemma same_fields_refl s : same_fields s s.
Proof. repeat split. Qed.

Lemma same_time_now w w' : same_time w w' -> now w' = now w.
Proof. intros (Hc & _ & Ht). unfold now. now rewrite Hc, Ht. Qed.

Lemma _get_auth_header_same s s' :
  same_fields s s' -> _get_auth_header s' = _get_auth_header s.
Proof. intros (_ & Ha & _). unfold _get_auth_header. now rewrite Ha. Qed.

Lemma url_of_same s s' ep : same_fields s s' -> url_of s' ep = url_of s ep.
Proof. intros (Hb & _). unfold url_of. now rewrite Hb. Qed.

(** The header and the URL do not depend on the session handle. *)
Ltac refold s :=
  repeat match goal with
  | |- context [_get_auth_header ?x] =>
      progress change (_get_auth_header x) with (_get_auth_header s)
  | |- context [url_of ?x ?ep] =>
      progress change (url_of x ep) with (url_of s ep)
  end.

(** A request whose header aiohttp accepts goes out, exactly once and
    whatever comes back; one whose header is refused does not.  Either way
    tokens, credentials and clock are left alone. *)
Lemma _get_request_sent ep s w :
  let o := _get_request ep s w in
  w_trace (wld o) =
    (if header_safe (_get_auth_header s) then w_trace w ++ [get_rq s ep]
     else w_trace w) /\
  same_fields s (obj o) /\ same_time w (wld o).
Proof.
  unfold _get_request, _ensure_session, get_rq. run.
  destruct (_session s) as [[|]|]; run; cbn [rq_bearer]; refold s;
    (destruct (header_safe (_get_auth_header s)); [|repeat split]);
    match goal with |- context [w_server ?a ?b ?c] => destruct (w_server a b c) as [|st js [v|]|st] end;
    run; try destruct (400 <=? st)%Z; try destruct js; run;
    repeat split.
Qed.

Lemma _post_request_sent ep data s w :
  let o := _post_request ep data s w in
  w_trace (wld o) =
    (if header_safe (_get_auth_header s) then w_trace w ++ [post_rq s ep data]
     else w_trace w) /\
  same_fields s (obj o) /\ same_time w (wld o).
Proof.
  unfold _post_request, _ensure_session, post_rq. run.
  destruct (_session s) as [[|]|]; run; cbn [rq_bearer]; refold s;
    (destruct (header_safe (_get_auth_header s)); [|repeat split]);
    match goal with |- context [w_server ?a ?b ?c] => destruct (w_server a b c) as [|st js [v|]|st] end;
    run; try destruct (400 <=? st)%Z; try destruct js; run;
    repeat split.
Qed.

(** The dispatcher's contract: a refused header raises [ValueError]; what a
    request that went out returns or raises is read off the server's answer
    to that very request. *)
Lemma _get_request_reply ep s w :
  res (_get_request ep s w) =
    if header_safe (_get_auth_header s)
    then read_reply (w_server w (w_trace w) (get_rq s ep))
    else Raise ValueError.
Proof.
  unfold _get_request, _ensure_session, get_rq, read_reply. run.
  destruct (_session s) as [[|]|]; run; cbn [rq_bearer]; refold s;
    (destruct (header_safe (_get_auth_header s)); [|reflexivity]);
    cbn [logged w_server w_trace];
    match goal with |- context [w_server ?a ?b ?c] => destruct (w_server a b c) as [|st js [v|]|st] end;
    run; try destruct (400 <=? st)%Z; try destruct js; reflexivity.
Qed.

Lemma _post_request_reply ep data s w :
  res (_post_request ep data s w) =
    if header_safe (_get_auth_header s)
    then read_reply (w_server w (w_trace w) (post_rq s ep data))
    else Raise ValueError.
Proof.
  unfold _post_request, _ensure_session, post_rq, read_reply. run.
  destruct (_session s) as [[|]|]; run; cbn [rq_bearer]; refold s;
    (destruct (header_safe (_get_auth_header s)); [|reflexivity]);
    cbn [logged w_server w_trace];
    match goal with |- context [w_server ?a ?b ?c] => destruct (w_server a b c) as [|st js [v|]|st] end;
    run; try destruct (400 <=? st)%Z; try destruct js; reflexivity.
Qed.

(** Reading an answer never raises [ValueError] itself. *)
Lemma read_reply_raises r e :
  read_reply r = Raise e ->
  is_ClientError e = true \/ e = JSONDecodeError \/ e = UnicodeDecodeError.
Proof.
  destruct r as [|st js [v|]|st]; cbn; try destruct (400 <=? st)%Z;
    try destruct js; intros H; inversion H; subst; auto.
Qed.

(** So a request that returns, or raises anything but [ValueError], went
    out. *)
Lemma _get_request_went_out ep s w :
  res (_get_request ep s w) <> Raise ValueError ->
  header_safe (_get_auth_header s) = true.
Proof.
  rewrite _get_request_reply.
  destruct (header_safe (_get_auth_header s)); [reflexivity|congruence].
Qed.

Lemma _post_request_went_out ep data s w :
  res (_post_request ep data s w) <> Raise ValueError ->
  header_safe (_get_auth_header s) = true.
Proof.
  rewrite _post_request_reply.
  destruct (header_safe (_get_auth_header s)); [reflexivity|congruence].
Qed.

(** What [raise_for_status] and the transport can raise is a [ClientError];
    the other failures of a request are a refused header and a body that
    is no text or no JSON document. *)
Lemma _post_request_raises ep data s w e :
  res (_post_request ep data s w) = Raise e ->
  is_ClientError e = true \/ e = JSONDecodeError \/ e = UnicodeDecodeError \/
  e = ValueError.
Proof.
  rewrite _post_request_reply.
  destruct (header_safe (_get_auth_header s)).
  - intros H. apply read_reply_raises in H. tauto.
  - intros H. inversion H. auto.
Qed.

(** ** Token lifetime *)

Lemma float_of_int_30 : float_of_int 30 = Ok F30.
Proof. reflexivity. Qed.

(** [int] of a string raises nothing but [ValueError]. *)
Lemma int_of_str_raises s e : int_of_str s = Raise e -> e = ValueError.
Proof.
  unfold int_of_str.
  destruct (take_sign _) as [neg body].
  destruct (drop_underscores _ body) as [ds|]; [|congruence].
  destruct (take_digits ds) as [[|c d] [|c' r]]; congruence.
Qed.

Lemma read_expires_in_absent (d : gmap string pyval) :
  d !! "expires_in" = None -> read_expires_in (PDict d) = Ok 3600.
Proof. intros H. unfold read_expires_in, py_get, rbind. rewrite H. reflexivity. Qed.

Lemma read_expires_in_str (d : gmap string pyval) s :
  d !! "expires_in" = Some (PStr s) ->
  read_expires_in (PDict d) =
    Ok (match int_of_str s with Ok n => n | Raise _ => 3600 end).
Proof.
  intros H. unfold read_expires_in, py_get, rbind. rewrite H. simpl.
  destruct (int_of_str s) as [n|e] eqn:E; [reflexivity|].
  apply int_of_str_raises in E. subst e. reflexivity.
Qed.

Lemma read_expires_in_int (d : gmap string pyval) n :
  d !! "expires_in" = Some (PInt n) -> read_expires_in (PDict d) = Ok n.
Proof. intros H. unfold read_expires_in, py_get, rbind. rewrite H. reflexivity. Qed.

(** [set_expiry] on an integer that fits a float. *)
Lemma set_expiry_ok n fn s w :
  float_of_int n = Ok fn ->
  set_expiry n s w =
    (Ok tt, with_token_expires_at (fsub (fadd (now w) fn) F30) s, ticked w).
Proof.
  intros H. unfold set_expiry. run. unfold fadd_int, fsub_int.
  rewrite H, float_of_int_30. reflexivity.
Qed.

(** ** authenticate *)

(** An error field makes [authenticate] answer [False]. *)
Lemma authenticate_error u p s w (d : gmap string pyval) s1 w1 :
  _post_request signin_endpoint (signin_payload u p) s w = (Ok (PDict d), s1, w1) ->
  is_Some (d !! "error") ->
  authenticate u p s w = (Ok false, s1, logged ERROR "Login failed: %s - %s" w1).
Proof.
  intros Hpost Herr. unfold authenticate. run. rewrite Hpost.
  rewrite (dict_has_is_Some _ _ Herr). reflexivity.
Qed.

(** A mapping without an error field that lacks one of the two tokens
    makes [authenticate] answer [False]. *)
Lemma authenticate_missing_token u p s w (d : gmap string pyval) s1 w1 :
  _post_request signin_endpoint (signin_payload u p) s w = (Ok (PDict d), s1, w1) ->
  d !! "error" = None ->
  d !! "access_token" = None \/ d !! "refresh_token" = None ->
  authenticate u p s w = (Ok false, s1, logged ERROR "Unexpected login response: %s" w1).
Proof.
  intros Hpost Herr Hmiss. unfold authenticate. run. rewrite Hpost.
  rewrite (dict_has_None _ _ Herr). cbn [andb orb negb isinstance_dict].
  destruct Hmiss as [H|H]; rewrite (dict_has_None _ _ H);
    [|destruct (dict_has (PDict d) "access_token")]; reflexivity.
Qed.

(** The successful path of [authenticate], for an [expires_in] that
    [read_expires_in] accepts and that fits a float. *)
Lemma authenticate_tokens u p s w (d : gmap string pyval) s1 w1 at_ rt n fn :
  _post_request signin_endpoint (signin_payload u p) s w = (Ok (PDict d), s1, w1) ->
  d !! "error" = None ->
  d !! "access_token" = Some at_ ->
  d !! "refresh_token" = Some rt ->
  read_expires_in (PDict d) = Ok n ->
  float_of_int n = Ok fn ->
  authenticate u p s w =
    (Ok true,
     with_token_expires_at (fsub (fadd (now w1) fn) F30)
       (with_credentials u p (with_refresh_token rt (with_access_token at_ s1))),
     logged INFO "Authenticated! Expires in %s seconds." (ticked w1)).
Proof.
  intros Hpost Herr Hat Hrt Hexp Hfn. unfold authenticate. run.
  rewrite Hpost. rewrite (dict_has_None _ _ Herr).
  rewrite (dict_has_Some _ _ _ Hat), (dict_has_Some _ _ _ Hrt).
  cbn [andb orb negb isinstance_dict py_item]. unfold dict_item. rewrite Hat, Hrt, Hexp. run.
  rewrite (set_expiry_ok _ _ _ _ Hfn). reflexivity.
Qed.

(** [authenticate] handles every [ClientError] itself. *)
Lemma authenticate_no_ClientError u p s w e :
  res (authenticate u p s w) = Raise e -> is_ClientError e = false.
Proof.
  unfold authenticate, try_except.
  match goal with
  | |- context [match ?m s w with _ => _ end] =>
      destruct (m s w) as [[[b|e'] s'] w']
  end.
  - discriminate.
  - destruct e'; cbn; intros H; inversion H; reflexivity.
Qed.

(** ** refresh_access_token *)

Lemma refresh_no_token s w :
  truthy (_refresh_token s) = false ->
  refresh_access_token s w =
    (Ok false, s, logged ERROR "No refresh token available." w).
Proof. intros H. unfold refresh_access_token. run. rewrite H. reflexivity. Qed.

(** HTTP status errors and transport errors end the refresh at once. *)
Lemma refresh_client_error s w e s1 w1 :
  truthy (_refresh_token s) = true ->
  _post_request refresh_endpoint (refresh_payload s) s w = (Raise e, s1, w1) ->
  is_ClientError e = true ->
  refresh_access_token s w =
    (Ok false, s1, logged ERROR "Network error refreshing token: %s" w1).
Proof.
  intros Hrt Hpost He. unfold refresh_access_token. run. rewrite Hrt.
  cbn [negb]. rewrite Hpost, He. reflexivity.
Qed.

Lemma refresh_error_no_credentials s w (d : gmap string pyval) s1 w1 :
  truthy (_refresh_token s) = true ->
  _post_request refresh_endpoint (refresh_payload s) s w = (Ok (PDict d), s1, w1) ->
  is_Some (d !! "error") ->
  (truthy_str (_username s1) && truthy_str (_password s1))%bool = false ->
  refresh_access_token s w =
    (Ok false, s1,
     logged ERROR "No username/password to re-authenticate."
       (logged ERROR "Refresh token error: %s" w1)).
Proof.
  intros Hrt Hpost Herr Hcred. unfold refresh_access_token. run. rewrite Hrt.
  cbn [negb]. rewrite Hpost.
  rewrite (dict_has_is_Some _ _ Herr). cbn [andb isinstance_dict].
  destruct (_username s1) as [u|], (_password s1) as [p|]; try reflexivity.
  rewrite Hcred. reflexivity.
Qed.

(** With credentials at hand, an error answer to the refresh hands over to
    [authenticate], whose outcome is the outcome of the refresh. *)
Lemma refresh_error_reauth s w (d : gmap string pyval) s1 w1 u p :
  truthy (_refresh_token s) = true ->
  _post_request refresh_endpoint (refresh_payload s) s w = (Ok (PDict d), s1, w1) ->
  is_Some (d !! "error") ->
  _username s1 = Some u -> _password s1 = Some p ->
  u <> "" -> p <> "" ->
  refresh_access_token s w =
    authenticate u p s1
      (logged WARNING "Trying to re-authenticate."
         (logged ERROR "Refresh token error: %s" w1)).
Proof.
  intros Hrt Hpost Herr Hu Hp Hune Hpne. unfold refresh_access_token. run.
  rewrite Hrt. cbn [negb]. rewrite Hpost.
  rewrite (dict_has_is_Some _ _ Herr). cbn [andb isinstance_dict].
  rewrite Hu, Hp. unfold truthy_str.
  apply String.eqb_neq in Hune, Hpne. rewrite Hune, Hpne. cbn [negb andb].
  match goal with |- context [authenticate u p s1 ?w'] => set (w2 := w') end.
  pose proof (authenticate_no_ClientError u p s1 w2) as Hno.
  destruct (authenticate u p s1 w2) as [[[b|e] s2] w3]; [reflexivity|].
  unfold res in Hno. cbn [fst] in Hno. rewrite (Hno e eq_refl). reflexivity.
Qed.

(** The path of [refresh_access_token] that stores what the answer holds. *)
Lemma refresh_stores s w (d : gmap string pyval) s1 w1 n fn :
  truthy (_refresh_token s) = true ->
  _post_request refresh_endpoint (refresh_payload s) s w = (Ok (PDict d), s1, w1) ->
  d !! "error" = None ->
  read_expires_in (PDict d) = Ok n ->
  float_of_int n = Ok fn ->
  refresh_access_token s w =
    (Ok true,
     with_token_expires_at (fsub (fadd (now w1) fn) F30)
       (with_refresh_token (default PNone (d !! "refresh_token"))
          (with_access_token (default PNone (d !! "access_token")) s1)),
     logged INFO "Token refreshed. Expires in %s seconds." (ticked w1)).
Proof.
  intros Hrt Hpost Herr Hexp Hfn. unfold refresh_access_token. run.
  rewrite Hrt. cbn [negb]. rewrite Hpost.
  rewrite (dict_has_None _ _ Herr). cbn [andb isinstance_dict py_get].
  rewrite Hexp. run. rewrite (set_expiry_ok _ _ _ _ Hfn). reflexivity.
Qed.

(** ** maybe_refresh_token *)

Lemma compare_cont_swap ma mb :
  Pos.compare_cont Eq mb ma = CompOpp (Pos.compare_cont Eq ma mb).
Proof. rewrite (Pos.compare_cont_antisym ma mb Eq). reflexivity. Qed.

Lemma SFcompare_Lt_Gt a b : SFcompare a b = Some Lt -> SFcompare b a = Some Gt.
Proof.
  destruct a as [sa|sa| |sa ma ea], b as [sb|sb| |sb mb eb]; cbn;
    try discriminate; try (destruct sa; discriminate);
    try (destruct sb; discriminate);
    try (destruct sa, sb; congruence).
  destruct sa, sb; try congruence;
    rewrite (Z.compare_antisym ea eb), (compare_cont_swap ma mb);
    destruct (ea ?= eb)%Z; cbn; try congruence;
    destruct (Pos.compare_cont Eq ma mb); cbn; congruence.
Qed.

(** [a < b] excludes [a >= b]. *)
Lemma fltb_not_fgeb a b : fltb a b = true -> fgeb a b = false.
Proof.
  unfold fltb, fgeb, SFltb, SFleb. intros H.
  destruct (SFcompare a b) as [[| |]|] eqn:E; try discriminate.
  rewrite (SFcompare_Lt_Gt _ _ E). reflexivity.
Qed.

Lemma maybe_refresh_no_token s w :
  truthy (_access_token s) = false ->
  maybe_refresh_token s w = (Ok false, s, logged WARNING no_token_msg w).
Proof. intros H. unfold maybe_refresh_token. run. rewrite H. reflexivity. Qed.

Lemma maybe_refresh_valid s w :
  truthy (_access_token s) = true ->
  fgeb (now w) (_token_expires_at s) = false ->
  maybe_refresh_token s w = (Ok true, s, ticked w).
Proof.
  intros H Hlt. unfold maybe_refresh_token. run. rewrite H. run.
  rewrite Hlt. reflexivity.
Qed.

Lemma maybe_refresh_expired s w :
  truthy (_access_token s) = true ->
  fgeb (now w) (_token_expires_at s) = true ->
  maybe_refresh_token s w =
    refresh_access_token s (logged DEBUG expired_msg (ticked w)).
Proof.
  intros H Hge. unfold maybe_refresh_token. run. rewrite H. run.
  rewrite Hge. reflexivity.
Qed.

(** ** Which computations reach the network *)

(** An outcome is determined by its three projections. *)
Lemma outcome_eta {A} (o : result A * CondairApi * world) r :
  res o = r -> o = (r, obj o, wld o).
Proof. destruct o as [[r' s'] w']. cbn. intros ->. reflexivity. Qed.

Lemma quiet_ret {A} (a : A) : quiet (ret a).
Proof. intros s w. reflexivity. Qed.

Lemma quiet_raise {A} e : quiet (@raise A e).
Proof. intros s w. reflexivity. Qed.

Lemma quiet_lift {A} (r : result A) : quiet (lift r).
Proof. destruct r; intros s w; reflexivity. Qed.

Lemma quiet_self : quiet self.
Proof. intros s w. reflexivity. Qed.

Lemma quiet_update f : quiet (update f).
Proof. intros s w. reflexivity. Qed.

Lemma quiet_log lv msg : quiet (log lv msg).
Proof. intros s w. reflexivity. Qed.

Lemma quiet_time_time : quiet time_time.
Proof. intros s w. reflexivity. Qed.

Lemma quiet_bind {A B} (m : M A) (k : A -> M B) :
  quiet m -> (forall a, quiet (k a)) -> quiet (bind m k).
Proof.
  intros Hm Hk s w. unfold bind. specialize (Hm s w).
  destruct (m s w) as [[[a|e] s'] w']; cbn in *; [|assumption].
  rewrite <- Hm. apply Hk.
Qed.

Lemma quiet_try_except {A} (m : M A) h :
  quiet m -> (forall e k, h e = Some k -> quiet k) -> quiet (try_except m h).
Proof.
  intros Hm Hh s w. unfold try_except. specialize (Hm s w).
  destruct (m s w) as [[[a|e] s'] w']; cbn in *; [assumption|].
  destruct (h e) as [k|] eqn:E; cbn; [|assumption].
  rewrite <- Hm. eapply Hh; eauto.
Qed.

Create HintDb quiet.
#[local] Hint Resolve quiet_ret quiet_raise quiet_lift quiet_self quiet_update
  quiet_log quiet_time_time : quiet.
#[local] Hint Extern 2 (quiet (bind _ _)) => apply quiet_bind; [|intros ?] : quiet.
#[local] Hint Extern 2 (quiet (if ?c then _ else _)) => destruct c : quiet.

Lemma quiet_set_expiry n : quiet (set_expiry n).
Proof. unfold set_expiry. auto 10 with quiet. Qed.
#[local] Hint Resolve quiet_set_expiry : quiet.



Lemma grows_try_except {A} (m : M A) h :
  grows m -> (forall e k, h e = Some k -> grows k) -> grows (try_except m h).
Proof.
  intros Hm Hh s w. unfold try_except. destruct (Hm s w) as [r1 H1].
  destruct (m s w) as [[[a|e] s'] w']; cbn in *; [eauto|].
  destruct (h e) as [k|] eqn:E; cbn; [|eauto].
  destruct (Hh e k E s' w') as [r2 H2]. exists (r1 ++ r2).
  rewrite H2, H1. symmetry. apply app_assoc.
Qed.

Lemma grows_post_request ep data : grows (_post_request ep data).
Proof.
  intros s w. destruct (_post_request_sent ep data s w) as (H & _). rewrite H.
  destruct (header_safe _); [eauto|exists []; symmetry; apply app_nil_r].
Qed.

Lemma grows_get_request ep : grows (_get_request ep).
Proof.
  intros s w. destruct (_get_request_sent ep s w) as (H & _). rewrite H.
  destruct (header_safe _); [eauto|exists []; symmetry; apply app_nil_r].
Qed.

(** A request followed by quiet work, under quiet handlers, leaves the trace
    where the request left it. *)
Lemma request_then_quiet {A B} (m : M A) (k : A -> M B) h s w :
  (forall a, quiet (k a)) ->
  (forall e k', h e = Some k' -> quiet k') ->
  w_trace (wld (try_except (bind m k) h s w)) = w_trace (wld (m s w)).
Proof.
  intros Hk Hh. unfold try_except, bind.
  destruct (m s w) as [[[a|e] s'] w']; cbn.
  - specialize (Hk a s' w').
    destruct (k a s' w') as [[[b|e] s''] w'']; cbn in *; [assumption|].
    destruct (h e) as [k'|] eqn:E; cbn; [|assumption].
    rewrite <- Hk. eapply Hh; eauto.
  - destruct (h e) as [k'|] eqn:E; cbn; [|reflexivity]. eapply Hh; eauto.
Qed.

(** [authenticate] dispatches one request, the sign-in POST that carries
    the two credentials, or none when the header is refused. *)
Lemma authenticate_trace u p s w :
  w_trace (wld (authenticate u p s w)) =
    if header_safe (_get_auth_header s)
    then w_trace w ++ [post_rq s signin_endpoint (signin_payload u p)]
    else w_trace w.
Proof.
  unfold authenticate. rewrite request_then_quiet.
  - apply _post_request_sent.
  - intros resp. auto 20 with quiet.
  - intros e k. destruct e; cbn; intros H; inversion H; auto 10 with quiet.
Qed.



Lemma bind_self {B} (k : CondairApi -> M B) s w : bind self k s w = k s s w.
Proof. reflexivity. Qed.



Lemma post_rq_same s s' ep data :
  same_fields s s' -> post_rq s' ep data = post_rq s ep data.
Proof.
  intros H. unfold post_rq.
  now rewrite (url_of_same _ _ _ H), (_get_auth_header_same _ _ H).
Qed.

(** ** The claims on the token lifecycle *)

(** C1 (not met by the code).  The sign-in response
    [{"access_token": "A1", "refresh_token": "R1", "expires_in": null}] is a
    mapping that contains both tokens and no error field, and its
    [expires_in] is not parsable as an integer, so [authenticate] should
    return success with an expiry computed from 3600.  Instead the tokens
    and the credentials are stored, [int(None)] raises [TypeError], which
    [except ValueError] lets through, [authenticate] raises, and the expiry
    keeps its initial value. *)
Theorem authenticate_null_expires_in_raises :
  let o := authenticate "user" "secret" new_client null_expiry_world in
  res (_post_request signin_endpoint (signin_payload "user" "secret")
         new_client null_expiry_world)
    = Ok (PDict {[ "access_token" := PStr "A1"; "refresh_token" := PStr "R1";
                   "expires_in" := PNone ]}) /\
  res o = Raise TypeError /\
  _access_token (obj o) = PStr "A1" /\
  _refresh_token (obj o) = PStr "R1" /\
  _username (obj o) = Some "user" /\
  _token_expires_at (obj o) = F0.
Proof. vm_compute. repeat split. Qed.

(** What does hold of [authenticate] on a mapping with both tokens and no
    error field: when [expires_in] is absent or a string, the call succeeds,
    stores tokens and credentials, and the expiry is
    [now + expires_in - 30], with 3600 for [expires_in] unless the string is
    an integer literal (which must fit a float). *)
Lemma authenticate_expiry_absent_or_string u p s w (d : gmap string pyval) at_ rt fn :
  let o1 := _post_request signin_endpoint (signin_payload u p) s w in
  let n := match d !! "expires_in" with
           | Some (PStr e) => match int_of_str e with Ok n => n | Raise _ => 3600 end
           | _ => 3600
           end in
  res o1 = Ok (PDict d) ->
  d !! "error" = None ->
  d !! "access_token" = Some at_ ->
  d !! "refresh_token" = Some rt ->
  (d !! "expires_in" = None \/ exists e, d !! "expires_in" = Some (PStr e)) ->
  float_of_int n = Ok fn ->
  let o := authenticate u p s w in
  res o = Ok true /\
  _access_token (obj o) = at_ /\ _refresh_token (obj o) = rt /\
  _username (obj o) = Some u /\ _password (obj o) = Some p /\
  _token_expires_at (obj o) = fsub (fadd (now (wld o1)) fn) F30.
Proof.
  intros o1 n Hres Herr Hat Hrt Hexp Hfn o.
  assert (Hread : read_expires_in (PDict d) = Ok n).
  { subst n. destruct Hexp as [H|[e H]]; rewrite H.
    - now apply read_expires_in_absent.
    - now apply read_expires_in_str. }
  subst o. rewrite (authenticate_tokens u p s w d _ _ at_ rt n fn
                      (outcome_eta _ _ Hres) Herr Hat Hrt Hread Hfn).
  cbn. repeat split.
Qed.

(** C2 (as amended).  Let a response be a mapping with an error field.
    Given to [authenticate], it makes the call return [False].  Given to
    [refresh_access_token], it makes the call return [False] unless a
    non-empty username and password are stored; with them, the refresh is
    exactly one call of [authenticate] on these credentials, and returns
    [False] when the sign-in response carries an error field as well. *)
Theorem error_field_answers (d : gmap string pyval) :
  is_Some (d !! "error") ->
  (forall u p s w,
      res (_post_request signin_endpoint (signin_payload u p) s w) = Ok (PDict d) ->
      res (authenticate u p s w) = Ok false) /\
  (forall s w,
      let o1 := _post_request refresh_endpoint (refresh_payload s) s w in
      truthy (_refresh_token s) = true ->
      res o1 = Ok (PDict d) ->
      match _username s, _password s with
      | Some u, Some p =>
          if (truthy_str (Some u) && truthy_str (Some p))%bool then
            let w2 := logged WARNING "Trying to re-authenticate."
                        (logged ERROR "Refresh token error: %s" (wld o1)) in
            refresh_access_token s w = authenticate u p (obj o1) w2 /\
            (forall d' : gmap string pyval,
                is_Some (d' !! "error") ->
                res (_post_request signin_endpoint (signin_payload u p) (obj o1) w2)
                  = Ok (PDict d') ->
                res (refresh_access_token s w) = Ok false)
          else res (refresh_access_token s w) = Ok false
      | _, _ => res (refresh_access_token s w) = Ok false
      end).
Proof.
  intros Herr. split.
  - intros u p s w Hres.
    rewrite (authenticate_error u p s w d _ _ (outcome_eta _ _ Hres) Herr).
    reflexivity.
  - intros s w o1 Hrt Hres.
    destruct (_post_request_sent refresh_endpoint (refresh_payload s) s w)
      as (_ & (_ & _ & _ & _ & Hu & Hp) & _). fold o1 in Hu, Hp.
    pose proof (outcome_eta _ _ Hres) as Hpost.
    destruct (_username s) as [u|] eqn:Eu, (_password s) as [p|] eqn:Ep.
    + destruct (truthy_str (Some u) && truthy_str (Some p))%bool eqn:Ec.
      * apply andb_true_iff in Ec. destruct Ec as [Ec1 Ec2].
        cbn in Ec1, Ec2. apply negb_true_iff, String.eqb_neq in Ec1, Ec2.
        intros w2.
        assert (Heq : refresh_access_token s w = authenticate u p (obj o1) w2)
          by (apply (refresh_error_reauth s w d _ _ u p Hrt Hpost Herr Hu Hp Ec1 Ec2)).
        split; [exact Heq|].
        intros d' Herr' Hres'. rewrite Heq.
        rewrite (authenticate_error u p _ _ d' _ _ (outcome_eta _ _ Hres') Herr').
        reflexivity.
      * rewrite (refresh_error_no_credentials s w d _ _ Hrt Hpost Herr).
        -- reflexivity.
        -- fold o1. now rewrite Hu, Hp.
    + rewrite (refresh_error_no_credentials s w d _ _ Hrt Hpost Herr).
      * reflexivity.
      * fold o1. rewrite Hu, Hp. cbn. apply andb_false_r.
    + rewrite (refresh_error_no_credentials s w d _ _ Hrt Hpost Herr).
      * reflexivity.
      * fold o1. now rewrite Hu.
    + rewrite (refresh_error_no_credentials s w d _ _ Hrt Hpost Herr).
      * reflexivity.
      * fold o1. now rewrite Hu.
Qed.

(** The three situations of [error_field_answers], run on a server whose
    every answer carries an error field. *)
Lemma error_field_answers_witness :
  res (authenticate "user" "secret" new_client all_errors_world) = Ok false /\
  res (refresh_access_token stale_without_credentials all_errors_world) = Ok false /\
  res (refresh_access_token stale_with_credentials all_errors_world) = Ok false.
Proof.
  assert (Herr : is_Some (({[ "error" := PStr "invalid_grant" ]} : gmap string pyval) !! "error"))
    by (exists (PStr "invalid_grant"); reflexivity).
  destruct (error_field_answers _ Herr) as [Ha Hr].
  split; [|split].
  - apply Ha. vm_compute. reflexivity.
  - apply (Hr stale_without_credentials all_errors_world);
      vm_compute; reflexivity.
  - refine (proj2 (Hr stale_with_credentials all_errors_world _ _) _ Herr _);
      vm_compute; reflexivity.
Defined.

(** C2, as first stated, fails: the refresh response below is a mapping with
    an error field, credentials are stored, the re-authentication succeeds,
    and so [refresh_access_token] returns [True]. *)
Lemma refresh_error_answer_yet_success :
  res (_post_request refresh_endpoint (refresh_payload stale_with_credentials)
         stale_with_credentials dead_refresh_world)
    = Ok (PDict {[ "error" := PStr "invalid_grant" ]}) /\
  res (refresh_access_token stale_with_credentials dead_refresh_world) = Ok true.
Proof. vm_compute. split; reflexivity. Qed.




(** C4 (as amended).  Let a non-empty username and password be stored.  A
    refresh that fails for want of a refresh token dispatches nothing; one
    whose POST raises a [ClientError] (HTTP status or transport) dispatches
    the refresh POST and nothing else; neither re-authenticates.  A refresh
    whose response is a mapping with an error field is one call of
    [authenticate] with the stored credentials: the trace gains the refresh
    POST followed by exactly one sign-in POST carrying them. *)
Theorem refresh_reauthentication s w u p :
  _username s = Some u -> _password s = Some p -> u <> "" -> p <> "" ->
  let o := refresh_access_token s w in
  let o1 := _post_request refresh_endpoint (refresh_payload s) s w in
  let rq_refresh := post_rq s refresh_endpoint (refresh_payload s) in
  let rq_signin := post_rq s signin_endpoint (signin_payload u p) in
  (truthy (_refresh_token s) = false ->
   res o = Ok false /\ w_trace (wld o) = w_trace w) /\
  (truthy (_refresh_token s) = true ->
   forall e, res o1 = Raise e -> is_ClientError e = true ->
   res o = Ok false /\ w_trace (wld o) = w_trace w ++ [rq_refresh]) /\
  (truthy (_refresh_token s) = true ->
   forall d : gmap string pyval, res o1 = Ok (PDict d) -> is_Some (d !! "error") ->
   o = authenticate u p (obj o1)
         (logged WARNING "Trying to re-authenticate."
            (logged ERROR "Refresh token error: %s" (wld o1))) /\
   w_trace (wld o) = w_trace w ++ [rq_refresh; rq_signin]).
Proof.
  intros Hu Hp Hune Hpne o o1 rq_refresh rq_signin.
  destruct (_post_request_sent refresh_endpoint (refresh_payload s) s w)
    as (Htr & Hsame & _). fold o1 in Htr, Hsame.
  split; [|split].
  - intros Hrt. subst o. rewrite (refresh_no_token s w Hrt). split; reflexivity.
  - intros Hrt e Hres He. subst o.
    rewrite (_post_request_went_out refresh_endpoint (refresh_payload s) s w) in Htr
      by (fold o1; rewrite Hres; intros H; inversion H; subst; discriminate).
    rewrite (refresh_client_error s w e _ _ Hrt (outcome_eta _ _ Hres) He).
    split; [reflexivity|exact Htr].
  - intros Hrt d Hres Herr.
    assert (Hu1 : _username (obj o1) = Some u)
      by (destruct Hsame as (_ & _ & _ & _ & H & _); now rewrite H).
    assert (Hp1 : _password (obj o1) = Some p)
      by (destruct Hsame as (_ & _ & _ & _ & _ & H); now rewrite H).
    assert (Heq := refresh_error_reauth s w d _ _ u p Hrt
                     (outcome_eta _ _ Hres) Herr Hu1 Hp1 Hune Hpne).
    fold o in Heq. split; [exact Heq|].
    assert (Hsafe : header_safe (_get_auth_header s) = true)
      by (apply (_post_request_went_out refresh_endpoint (refresh_payload s) s w);
          fold o1; rewrite Hres; discriminate).
    rewrite Heq, authenticate_trace. cbn [logged w_trace].
    rewrite (_get_auth_header_same _ _ Hsame), Hsafe in *.
    rewrite Htr, (post_rq_same _ _ _ _ Hsame), <- app_assoc. reflexivity.
Qed.

(** [refresh_reauthentication] at work: the refresh token is dead, and the
    trace shows the refresh POST followed by the single sign-in POST. *)
Lemma refresh_reauthentication_witness :
  w_trace (wld (refresh_access_token stale_with_credentials dead_refresh_world))
    = [post_rq stale_with_credentials refresh_endpoint (refresh_payload stale_with_credentials);
       post_rq stale_with_credentials signin_endpoint (signin_payload "user" "secret")].
Proof.
  refine (proj2 (proj2 (proj2
    (refresh_reauthentication stale_with_credentials dead_refresh_world
       "user" "secret" _ _ _ _)) _ {[ "error" := PStr "invalid_grant" ]} _ _));
    try reflexivity; try discriminate.
  exists (PStr "invalid_grant"). reflexivity.
Defined.

(** C4, as first stated, fails: credentials are stored and the sign-in
    endpoint would accept them, but the refresh POST is answered by HTTP 500;
    the refresh fails and the only request dispatched is the refresh POST. *)
Lemma refresh_http_error_no_reauthentication :
  _username stale_with_credentials = Some "user" /\
  _password stale_with_credentials = Some "secret" /\
  res (_post_request refresh_endpoint (refresh_payload stale_with_credentials)
         stale_with_credentials refresh_down_world) = Raise ClientResponseError /\
  res (refresh_access_token stale_with_credentials refresh_down_world) = Ok false /\
  w_trace (wld (refresh_access_token stale_with_credentials refresh_down_world))
    = [post_rq stale_with_credentials refresh_endpoint (refresh_payload stale_with_credentials)].
Proof. vm_compute. repeat split. Qed.

(** C10 (as amended).  Let the refresh response be a mapping without an
    error field whose [expires_in] the client can read.  Then
    [refresh_access_token] returns [True] and overwrites each stored token
    with the value of the response, or with [None] where the response has no
    such field, whereas [authenticate] returns [False] on a response that
    lacks one of the two.  When the response has no access token, or one
    that counts as false ([None], the empty string, zero, [False], an empty
    list or mapping), every later [maybe_refresh_token] fails, off the
    network, for want of an access token; when its access token counts as
    true, a later [maybe_refresh_token] succeeds, off the network, as long
    as [now < expires_at], whether or not the response has a refresh
    token. *)
Theorem refresh_without_error_field s w (d : gmap string pyval) n fn :
  let o1 := _post_request refresh_endpoint (refresh_payload s) s w in
  truthy (_refresh_token s) = true ->
  res o1 = Ok (PDict d) ->
  d !! "error" = None ->
  read_expires_in (PDict d) = Ok n ->
  float_of_int n = Ok fn ->
  let o := refresh_access_token s w in
  res o = Ok true /\
  _access_token (obj o) = default PNone (d !! "access_token") /\
  _refresh_token (obj o) = default PNone (d !! "refresh_token") /\
  _token_expires_at (obj o) = fsub (fadd (now (wld o1)) fn) F30 /\
  (truthy (default PNone (d !! "access_token")) = false ->
   forall w', res (maybe_refresh_token (obj o) w') = Ok false /\
              w_trace (wld (maybe_refresh_token (obj o) w')) = w_trace w') /\
  (truthy (default PNone (d !! "access_token")) = true ->
   forall w', fltb (now w') (_token_expires_at (obj o)) = true ->
              res (maybe_refresh_token (obj o) w') = Ok true /\
              w_trace (wld (maybe_refresh_token (obj o) w')) = w_trace w') /\
  (forall u p s' w',
      res (_post_request signin_endpoint (signin_payload u p) s' w') = Ok (PDict d) ->
      d !! "access_token" = None \/ d !! "refresh_token" = None ->
      res (authenticate u p s' w') = Ok false).
Proof.
  intros o1 Hrt Hres Herr Hexp Hfn o. subst o.
  rewrite (refresh_stores s w d _ _ n fn Hrt (outcome_eta _ _ Hres) Herr Hexp Hfn).
  cbn [res obj wld fst snd].
  repeat match goal with |- _ /\ _ => split end; try reflexivity.
  - intros Hfalse w'. rewrite maybe_refresh_no_token.
    + split; reflexivity.
    + cbn [_access_token with_access_token with_refresh_token with_token_expires_at].
      exact Hfalse.
  - intros Htruthy w' Hlt. rewrite maybe_refresh_valid.
    + split; reflexivity.
    + cbn [_access_token with_access_token with_refresh_token with_token_expires_at].
      exact Htruthy.
    + apply fltb_not_fgeb. exact Hlt.
  - intros u p s' w' Hres' Hmiss.
    rewrite (authenticate_missing_token u p s' w' d _ _
               (outcome_eta _ _ Hres') Herr Hmiss).
    reflexivity.
Qed.

(** [refresh_without_error_field] on an empty mapping: the refresh reports
    success, both tokens are gone, and the next validity check fails. *)
Lemma refresh_without_error_field_witness :
  let o := refresh_access_token stale_without_credentials empty_refresh_world in
  res o = Ok true /\
  _access_token (obj o) = PNone /\
  _refresh_token (obj o) = PNone /\
  res (maybe_refresh_token (obj o) (wld o)) = Ok false.
Proof.
  intros o.
  destruct (refresh_without_error_field stale_without_credentials
              empty_refresh_world ∅ 3600 (Z2F 3600))
    as (H1 & H2 & H3 & _ & H5 & _); try reflexivity.
  fold o in H1, H2, H3, H5.
  split; [exact H1|]. split; [exact H2|]. split; [exact H3|].
  exact (proj1 (H5 eq_refl (wld o))).
Defined.

(** C10, as first stated, fails: the refresh response lacks the refresh
    token only; the refresh reports success, and the later validity check
    succeeds with the new access token instead of failing. *)
Lemma refresh_token_missing_yet_valid :
  let o := refresh_access_token stale_without_credentials access_only_world in
  res (_post_request refresh_endpoint (refresh_payload stale_without_credentials)
         stale_without_credentials access_only_world)
    = Ok (PDict {[ "access_token" := PStr "A2" ]}) /\
  res o = Ok true /\
  _access_token (obj o) = PStr "A2" /\
  _refresh_token (obj o) = PNone /\
  res (maybe_refresh_token (obj o) (wld o)) = Ok true.
Proof. vm_compute. repeat split. Qed.

(** ** The claims on data fetching and actions *)

(** What follows the validity check runs in the state the check left,
    whatever the check answered. *)
Lemma after_validation {B} (k : M B) s w b :
  res (maybe_refresh_token s w) = Ok b ->
  (maybe_refresh_token ;; k) s w =
    k (obj (maybe_refresh_token s w)) (wld (maybe_refresh_token s w)).
Proof.
  unfold bind. destruct (maybe_refresh_token s w) as [[r s'] w']. cbn.
  intros ->. reflexivity.
Qed.


Lemma quiet_after_devices resp :
  quiet (if (isinstance_dict resp && dict_has resp "data")%bool
         then lift (py_item resp "data")
         else log WARNING "Unexpected get_devices response: %s" ;; ret (PList [])).
Proof. auto 10 with quiet. Qed.

Lemma quiet_after_datapoints raw_data :
  quiet (match raw_data with
         | PList l => lift (parse_datapoints ∅ l)
         | _ => log WARNING "Expected a list from latest-datapoint-values, got: %s" ;;
                ret ∅
         end).
Proof. destruct raw_data; auto 10 with quiet. Qed.

Lemma quiet_after_actions resp :
  quiet (match resp with
         | PList l => ret l
         | _ => log WARNING "Expected list from get_actions, got: %s" ;; ret []
         end).
Proof. destruct resp; auto 10 with quiet. Qed.

Lemma bind_raises {A B} (m : M A) (k : A -> M B) s w e :
  res (m s w) = Raise e -> res (bind m k s w) = Raise e.
Proof.
  unfold bind. destruct (m s w) as [[[a|e'] s'] w']; cbn; [discriminate|].
  intros H. inversion H. reflexivity.
Qed.

Lemma try_bind_raises {A B} (m : M A) (k : A -> M B) h s w e :
  res (m s w) = Raise e -> h e = None ->
  res (try_except (bind m k) h s w) = Raise e.
Proof.
  unfold try_except, bind. destruct (m s w) as [[[a|e'] s'] w']; cbn; [discriminate|].
  intros H He. inversion H; subst. rewrite He. reflexivity.
Qed.




(** C8.  Once the validity check has returned and the listing request has
    been answered by [resp], [get_devices] returns the [data] field of
    [resp] when [resp] is a mapping that has one, and otherwise the empty
    list, after logging a warning. *)
Theorem get_devices_data s w resp b :
  let o0 := maybe_refresh_token s w in
  let o1 := _get_request devices_endpoint (obj o0) (wld o0) in
  res o0 = Ok b ->
  res o1 = Ok resp ->
  get_devices s w =
    match resp with
    | PDict d =>
        match d !! "data" with
        | Some v => (Ok v, obj o1, wld o1)
        | None =>
            (Ok (PList []), obj o1,
             logged WARNING "Unexpected get_devices response: %s" (wld o1))
        end
    | _ =>
        (Ok (PList []), obj o1,
         logged WARNING "Unexpected get_devices response: %s" (wld o1))
    end.
Proof.
  intros o0 o1 H0 H1. unfold get_devices.
  rewrite (after_validation _ s w b H0). fold o0.
  unfold bind at 1. fold o1. rewrite (outcome_eta _ _ H1).
  destruct resp as [| | | | | |d]; try reflexivity.
  destruct (d !! "data") as [v|] eqn:E.
  - rewrite (dict_has_Some _ _ _ E). cbn [isinstance_dict andb py_item].
    unfold dict_item. rewrite E. reflexivity.
  - rewrite (dict_has_None _ _ E). reflexivity.
Qed.

(** The two scenarios of the specification: a listing with one device, and
    an empty mapping, which gives the empty list and one warning. *)
Lemma get_devices_data_witness :
  res (get_devices signed_in devices_world) = Ok bath_devices /\
  res (get_devices signed_in no_data_world) = Ok (PList []) /\
  w_log (wld (get_devices signed_in no_data_world))
    = [(DEBUG, "GET %s"); (WARNING, "Unexpected get_devices response: %s")].
Proof.
  pose proof (get_devices_data signed_in devices_world
                (PDict {[ "data" := bath_devices ]}) true eq_refl eq_refl) as H1.
  pose proof (get_devices_data signed_in no_data_world
                (PDict ∅) true eq_refl eq_refl) as H2.
  cbv zeta in H1, H2. rewrite H1, H2. repeat split.
Defined.

(** *** Datapoints *)

Lemma SFcompare_finite_pos m e m' e' :
  SFcompare (S754_finite false m e) (S754_finite false m' e') =
    Some match (e ?= e')%Z with
         | Lt => Lt
         | Gt => Gt
         | Eq => Pos.compare_cont Eq m m'
         end.
Proof. reflexivity. Qed.

(** Float equality with 1.0 is identity with the float 1.0. *)
Lemma feqb_F1 f : feqb f F1 = true <-> f = F1.
Proof.
  split; [|intros ->; reflexivity].
  unfold feqb, SFeqb, F1. destruct f as [sf|sf| |sf m e].
  - cbv [SFcompare]. discriminate.
  - cbv [SFcompare]. destruct sf; discriminate.
  - cbv [SFcompare]. discriminate.
  - destruct sf.
    + cbv [SFcompare]. discriminate.
    + rewrite SFcompare_finite_pos.
      destruct (Z.compare_spec e (-52)) as [He| |]; try discriminate.
      destruct (Pos.compare_cont Eq m 4503599627370496) eqn:Em; try discriminate.
      intros _. apply (Pos.compare_eq m) in Em. now subst.
Qed.

(** [numeric_val == 1.0] holds exactly when [float(value)] returned 1.0. *)
Lemma eq_one_iff v nv :
  numeric_of v = Ok nv -> (eq_one nv = true <-> py_float v = Ok F1).
Proof.
  unfold numeric_of.
  assert (Hgen : match py_float v with
                 | Ok f => Ok (Some f)
                 | Raise e => if is_ValueError e then Ok None else Raise e
                 end = Ok nv -> (eq_one nv = true <-> py_float v = Ok F1)).
  { destruct (py_float v) as [f|e].
    - intros H. inversion H; subst. cbn. rewrite feqb_F1.
      split; [intros ->; reflexivity|intros H'; now inversion H'].
    - destruct (is_ValueError e); intros H; inversion H; subst. cbn.
      split; discriminate. }
  destruct v; try exact Hgen.
  intros H. inversion H; subst. cbn. split; discriminate.
Qed.

Lemma parse_datapoints_app parsed l1 l2 :
  parse_datapoints parsed (l1 ++ l2) =
    (let? p := parse_datapoints parsed l1 in parse_datapoints p l2).
Proof.
  revert parsed. induction l1 as [|dp l1 IH]; intros parsed; cbn; [reflexivity|].
  destruct (parse_datapoint parsed dp) as [p|e]; cbn; [apply IH|reflexivity].
Qed.

(** An entry named "Area OnOff" sets [is_on], and sets it to the outcome of
    [numeric_val == 1.0]. *)
Lemma parse_datapoint_area_onoff parsed (d : gmap string pyval) parsed' :
  d !! "dataPointName" = Some (PStr "Area OnOff") ->
  parse_datapoint parsed (PDict d) = Ok parsed' ->
  exists nv,
    numeric_of (default PNone (d !! "value")) = Ok nv /\
    parsed' = <["is_on" := PBool (eq_one nv)]> parsed.
Proof.
  intros Hname. unfold parse_datapoint, py_get, rbind. rewrite Hname.
  destruct (numeric_of (default PNone (d !! "value"))) as [nv|e]; [|discriminate].
  cbn. intros H. inversion H. eauto.
Qed.

(** Entries with any other name, when they parse, leave [is_on] alone. *)
Lemma parse_datapoint_keeps_is_on parsed dp parsed' :
  datapoint_named "Area OnOff" dp = false ->
  parse_datapoint parsed dp = Ok parsed' ->
  parsed' !! "is_on" = parsed !! "is_on".
Proof.
  destruct dp as [| | | | | |d]; try discriminate.
  unfold datapoint_named, parse_datapoint, py_get, rbind.
  intros Hname.
  destruct (numeric_of (default PNone (d !! "value"))) as [nv|e]; [|discriminate].
  rewrite Hname.
  repeat match goal with
         | |- context [if ?c then _ else _] => destruct c
         end;
    intros H; inversion H; subst; try reflexivity;
    apply lookup_insert_ne; discriminate.
Qed.

Lemma parse_datapoints_keep_is_on l parsed snap :
  Forall (fun dp => datapoint_named "Area OnOff" dp = false) l ->
  parse_datapoints parsed l = Ok snap ->
  snap !! "is_on" = parsed !! "is_on".
Proof.
  intros Hl. revert parsed. induction Hl as [|dp l Hdp Hl IH]; intros parsed; cbn.
  - intros H. now inversion H.
  - destruct (parse_datapoint parsed dp) as [p|e] eqn:E; cbn; [|discriminate].
    intros H. rewrite (IH _ H). eapply parse_datapoint_keeps_is_on; eauto.
Qed.

(** When [get_latest_datapoints] returns, the validity check returned and
    the raw data went through the parsing loop. *)
Lemma get_latest_datapoints_returns uid s w snap l :
  let o0 := maybe_refresh_token s w in
  let o1 := _get_request (datapoints_endpoint uid) (obj o0) (wld o0) in
  res (get_latest_datapoints uid s w) = Ok snap ->
  res o1 = Ok (PList l) ->
  parse_datapoints ∅ l = Ok snap.
Proof.
  intros o0 o1. unfold get_latest_datapoints, bind. subst o1 o0.
  destruct (maybe_refresh_token s w) as [[[b|e] s0] w0]; cbn [obj wld fst snd];
    [|discriminate].
  destruct (_get_request (datapoints_endpoint uid) s0 w0) as [[[raw|e] s1] w1];
    cbn [res fst]; [|discriminate].
  intros Hsnap Hraw. inversion Hraw; subst raw.
  destruct (parse_datapoints ∅ l) as [p|e]; cbn in Hsnap; [|discriminate].
  exact Hsnap.
Qed.

(** What holds of C5.  Let [get_latest_datapoints] return a snapshot, and
    take any entry of the raw data whose name is "Area OnOff".  Its
    iteration sets [is_on] to a boolean that is [True] exactly when the
    entry has a value on which [float] returns 1.0: an absent or [None]
    value, a string [float] rejects and every other number give [False].
    No later entry of another name touches [is_on], so when the entry is
    the last of that name, this is the [is_on] of the snapshot returned. *)
Lemma is_on_iff_one uid s w l1 (d : gmap string pyval) l2 snap :
  let o0 := maybe_refresh_token s w in
  let o1 := _get_request (datapoints_endpoint uid) (obj o0) (wld o0) in
  res (get_latest_datapoints uid s w) = Ok snap ->
  res o1 = Ok (PList (l1 ++ PDict d :: l2)) ->
  d !! "dataPointName" = Some (PStr "Area OnOff") ->
  exists (b : bool) (before after : gmap string pyval),
    (b = true <-> exists v, d !! "value" = Some v /\ py_float v = Ok F1) /\
    parse_datapoints ∅ l1 = Ok before /\
    parse_datapoint before (PDict d) = Ok after /\
    after !! "is_on" = Some (PBool b) /\
    (Forall (fun dp => datapoint_named "Area OnOff" dp = false) l2 ->
     snap !! "is_on" = Some (PBool b)).
Proof.
  intros o0 o1 Hsnap Hraw Hname.
  pose proof (get_latest_datapoints_returns uid s w snap _ Hsnap Hraw) as Hloop.
  rewrite parse_datapoints_app in Hloop. unfold rbind in Hloop.
  destruct (parse_datapoints ∅ l1) as [before|e]; [|discriminate].
  cbn [parse_datapoints] in Hloop. unfold rbind in Hloop.
  destruct (parse_datapoint before (PDict d)) as [after|e] eqn:Estep; [|discriminate].
  destruct (parse_datapoint_area_onoff _ _ _ Hname Estep) as (nv & Hnv & ->).
  exists (eq_one nv), before, (<["is_on" := PBool (eq_one nv)]> before).
  split; [|split; [reflexivity|split; [exact Estep|split]]].
  - rewrite (eq_one_iff _ _ Hnv). destruct (d !! "value") as [v|]; cbn.
    + split; [eauto|]. intros (v' & Hv & H). now inversion Hv; subst.
    + split; [discriminate|]. intros (v' & Hv & _). discriminate.
  - apply lookup_insert_eq.
  - intros Hrest. rewrite (parse_datapoints_keep_is_on _ _ _ Hrest Hloop).
    apply lookup_insert_eq.
Qed.

(** [is_on_iff_one] on the scenario of the specification: the entry
    [{"dataPointName": "Area OnOff", "value": "1"}] comes last and turns
    [is_on] on. *)
Lemma is_on_iff_one_scenario :
  match res (get_latest_datapoints "A1" signed_in datapoints_world) with
  | Ok snap => snap !! "is_on" = Some (PBool true)
  | Raise _ => False
  end.
Proof.
  destruct (res (get_latest_datapoints "A1" signed_in datapoints_world))
    as [snap|e] eqn:Hsnap; [|vm_compute in Hsnap; discriminate].
  destruct (is_on_iff_one "A1" signed_in datapoints_world
              [PDict {[ "dataPointName" := PStr "Humidity Average"; "value" := PStr "45.2" ]}]
              {[ "dataPointName" := PStr "Area OnOff"; "value" := PStr "1" ]}
              [] snap Hsnap eq_refl eq_refl)
    as (b & before & after & Hb & _ & _ & _ & Hlast).
  rewrite (Hlast (List.Forall_nil _)). f_equal. f_equal. apply Hb.
  exists (PStr "1"). split; reflexivity.
Defined.

(** C5 (not met by the code).  The raw data
    [[{"dataPointName": "Area OnOff", "value": []}]] has one entry named
    "Area OnOff" whose value is not numerically parsable, so [is_on] should
    be set to [False] in the snapshot returned.  Instead [float([])] raises
    [TypeError], which [except ValueError] lets through, and
    [get_latest_datapoints] raises: no snapshot is returned.  An integer
    too large for a float does the same with [OverflowError]. *)
Theorem area_onoff_list_value_raises :
  res (_get_request (datapoints_endpoint "A1") signed_in onoff_list_value_world)
    = Ok onoff_list_valued_datapoints /\
  res (get_latest_datapoints "A1" signed_in onoff_list_value_world) = Raise TypeError /\
  res (_get_request (datapoints_endpoint "A1") signed_in onoff_huge_value_world)
    = Ok onoff_huge_valued_datapoints /\
  res (get_latest_datapoints "A1" signed_in onoff_huge_value_world)
    = Raise OverflowError.
Proof. repeat split; vm_compute; reflexivity. Qed.

(** C6 (not met by the code).  The raw data
    [[{"dataPointName": "Humidity Average", "value": []}]] has one entry,
    whose value is not numerically parsable, so the field should be skipped
    and the snapshot be empty.  Instead [float([])] raises [TypeError],
    which [except ValueError] lets through, and [get_latest_datapoints]
    raises. *)
Theorem get_latest_datapoints_list_value_raises :
  res (_get_request (datapoints_endpoint "A1") signed_in list_value_world)
    = Ok list_valued_datapoints /\
  res (get_latest_datapoints "A1" signed_in list_value_world) = Raise TypeError.
Proof. vm_compute. split; reflexivity. Qed.

(** What does hold of the parsing loop.  Whenever the numeric parse of the
    value of an entry either succeeds or ends in the [ValueError] that the
    loop catches, or the value is absent or [None], the entry changes the
    snapshot as the specification's table says: by exact name, skipping a
    numeric field without a number, ignoring any other name. *)
Lemma parse_datapoint_by_name parsed (d : gmap string pyval) nv :
  numeric_of (default PNone (d !! "value")) = Ok nv ->
  parse_datapoint parsed (PDict d) =
    Ok (snapshot_update parsed (default (PStr "") (d !! "dataPointName")) nv).
Proof.
  intros Hnv. unfold parse_datapoint, py_get, rbind. rewrite Hnv.
  destruct (default (PStr "") (d !! "dataPointName")) as [| | | |n| |];
    try reflexivity.
  unfold snapshot_update, numeric_field, eq_str.
  destruct (String.eqb n "Humidity Average") eqn:E1;
    [apply String.eqb_eq in E1; subst n; destruct nv; reflexivity|].
  destruct (String.eqb n "Temperature Average") eqn:E2;
    [apply String.eqb_eq in E2; subst n; destruct nv; reflexivity|].
  destruct (String.eqb n "Humidity Reference") eqn:E3;
    [apply String.eqb_eq in E3; subst n; destruct nv; reflexivity|].
  destruct (String.eqb n "Area OnOff"); reflexivity.
Qed.

(** A top-level response that is not a list gives the empty snapshot and a
    warning. *)
Lemma get_latest_datapoints_not_a_list uid s w raw b :
  let o0 := maybe_refresh_token s w in
  let o1 := _get_request (datapoints_endpoint uid) (obj o0) (wld o0) in
  res o0 = Ok b ->
  res o1 = Ok raw ->
  isinstance_list raw = false ->
  get_latest_datapoints uid s w =
    (Ok ∅, obj o1,
     logged WARNING "Expected a list from latest-datapoint-values, got: %s" (wld o1)).
Proof.
  intros o0 o1 H0 H1 Hraw. unfold get_latest_datapoints.
  rewrite (after_validation _ s w b H0). fold o0.
  unfold bind at 1. fold o1. rewrite (outcome_eta _ _ H1).
  destruct raw; try reflexivity. discriminate.
Qed.

(** The scenario of the specification: exactly two fields come out. *)
Lemma get_latest_datapoints_scenario :
  res (get_latest_datapoints "A1" signed_in datapoints_world)
    = Ok {[ "humidity_avg" := PFloat F45_2; "is_on" := PBool true ]}.
Proof. vm_compute. reflexivity. Qed.

(** *** Actions *)

Lemma next_named_absent name actions :
  Forall (fun a => isinstance_dict a = true) actions ->
  Forall (fun a => action_named name a = false) actions ->
  next_named name actions = Ok PNone.
Proof.
  induction actions as [|a actions IH]; intros Hd Hn; [reflexivity|].
  inversion Hd as [|? ? Ha Hd']; inversion Hn as [|? ? Hna Hn']; subst.
  destruct a as [| | | | | |d]; try discriminate.
  cbn in *. rewrite Hna. now apply IH.
Qed.

Lemma next_named_present name l1 (d : gmap string pyval) l2 :
  Forall (fun a => isinstance_dict a = true) l1 ->
  Forall (fun a => action_named name a = false) l1 ->
  d !! "name" = Some (PStr name) ->
  next_named name (l1 ++ PDict d :: l2) = Ok (PDict d).
Proof.
  intros Hd Hn Hname. induction l1 as [|a l1 IH]; cbn.
  - rewrite Hname. cbn. now rewrite String.eqb_refl.
  - inversion Hd as [|? ? Ha Hd']; inversion Hn as [|? ? Hna Hn']; subst.
    destruct a as [| | | | | |d0]; try discriminate.
    cbn in *. rewrite Hna. now apply IH.
Qed.

(** A mapping with a [name] is not empty, hence true as a condition. *)
Lemma truthy_named (d : gmap string pyval) v :
  d !! "name" = Some v -> truthy (PDict d) = true.
Proof.
  intros H. cbn. apply negb_true_iff, bool_decide_eq_false.
  intros ->. rewrite lookup_empty in H. discriminate.
Qed.

(** C7.  Let [get_actions] have returned a list of mappings.  If none of
    them has the name "Area OnOff", [set_on_off] returns [False] and does
    nothing but log; likewise [set_humidity_reference] for the name
    "Humidity Reference".  If the first action of that name has an [id],
    [set_on_off] is the call of [invoke_action] on that id with "1" for on
    and "0" for off, and [set_humidity_reference] the call of
    [invoke_action] with [str(humidity)]. *)
Theorem set_by_action_name uid s w actions :
  let o0 := get_actions uid s w in
  res o0 = Ok actions ->
  Forall (fun a => isinstance_dict a = true) actions ->
  (Forall (fun a => action_named "Area OnOff" a = false) actions ->
   forall turn_on,
     set_on_off uid turn_on s w
       = (Ok false, obj o0, logged ERROR no_onoff_msg (wld o0))) /\
  (Forall (fun a => action_named "Humidity Reference" a = false) actions ->
   forall humidity,
     set_humidity_reference uid humidity s w
       = (Ok false, obj o0, logged ERROR no_humidity_msg (wld o0))) /\
  (forall l1 (d : gmap string pyval) l2 action_id,
      actions = l1 ++ PDict d :: l2 ->
      Forall (fun a => action_named "Area OnOff" a = false) l1 ->
      d !! "name" = Some (PStr "Area OnOff") ->
      d !! "id" = Some action_id ->
      forall turn_on,
        set_on_off uid turn_on s w
          = invoke_action action_id uid (if turn_on then "1" else "0")
              (obj o0) (wld o0)) /\
  (forall l1 (d : gmap string pyval) l2 action_id,
      actions = l1 ++ PDict d :: l2 ->
      Forall (fun a => action_named "Humidity Reference" a = false) l1 ->
      d !! "name" = Some (PStr "Humidity Reference") ->
      d !! "id" = Some action_id ->
      forall humidity,
        set_humidity_reference uid humidity s w
          = invoke_action action_id uid (str_of_int humidity)
              (obj o0) (wld o0)).
Proof.
  intros o0 Hres Hdicts.
  pose proof (outcome_eta _ _ Hres) as Hget. fold o0 in Hget.
  split; [|split; [|split]].
  - intros Habs turn_on. unfold set_on_off. unfold bind at 1. fold o0.
    rewrite Hget. unfold bind at 1.
    rewrite (next_named_absent _ _ Hdicts Habs). reflexivity.
  - intros Habs humidity. unfold set_humidity_reference. unfold bind at 1.
    fold o0. rewrite Hget. unfold bind at 1.
    rewrite (next_named_absent _ _ Hdicts Habs). reflexivity.
  - intros l1 d l2 action_id -> Hl1 Hname Hid turn_on.
    apply Forall_app in Hdicts. destruct Hdicts as [Hd1 _].
    unfold set_on_off. unfold bind at 1. fold o0. rewrite Hget.
    unfold bind at 1. rewrite (next_named_present _ _ _ _ Hd1 Hl1 Hname).
    cbn [lift ret]. rewrite (truthy_named _ _ Hname). cbn [negb].
    unfold bind at 1. cbn [py_item]. unfold dict_item. rewrite Hid.
    reflexivity.
  - intros l1 d l2 action_id -> Hl1 Hname Hid humidity.
    apply Forall_app in Hdicts. destruct Hdicts as [Hd1 _].
    unfold set_humidity_reference. unfold bind at 1. fold o0. rewrite Hget.
    unfold bind at 1. rewrite (next_named_present _ _ _ _ Hd1 Hl1 Hname).
    cbn [lift ret]. rewrite (truthy_named _ _ Hname). cbn [negb].
    unfold bind at 1. cbn [py_item]. unfold dict_item. rewrite Hid.
    reflexivity.
Qed.

(** [set_by_action_name] on a device without the action and on a device
    with both: the first call fails after the listing alone, the others are
    the invocations of "act-1" with "1" and of "act-2" with "45". *)
Lemma set_by_action_name_witness :
  let o0 := get_actions "A1" signed_in actions_world in
  set_on_off "A1" true signed_in no_actions_world
    = (Ok false, obj (get_actions "A1" signed_in no_actions_world),
       logged ERROR no_onoff_msg (wld (get_actions "A1" signed_in no_actions_world))) /\
  set_on_off "A1" true signed_in actions_world
    = invoke_action (PStr "act-1") "A1" "1" (obj o0) (wld o0) /\
  set_humidity_reference "A1" 45 signed_in actions_world
    = invoke_action (PStr "act-2") "A1" "45" (obj o0) (wld o0).
Proof.
  intros o0.
  assert (Hd1 : Forall (fun a => isinstance_dict a = true) [PDict fan_action])
    by (repeat constructor).
  assert (Hd3 : Forall (fun a => isinstance_dict a = true)
                  [PDict fan_action; PDict onoff_action; PDict humidity_action])
    by (repeat constructor).
  destruct (set_by_action_name "A1" signed_in no_actions_world _ eq_refl Hd1)
    as (Habsent & _).
  destruct (set_by_action_name "A1" signed_in actions_world _ eq_refl Hd3)
    as (_ & _ & Honoff & Hhum).
  split; [|split].
  - apply Habsent. repeat constructor.
  - apply (Honoff [PDict fan_action] onoff_action [PDict humidity_action] (PStr "act-1"));
      try reflexivity.
    repeat constructor.
  - apply (Hhum [PDict fan_action; PDict onoff_action] humidity_action [] (PStr "act-2") eq_refl);
      try reflexivity.
    repeat constructor.
Defined.

(** The requests that the two invocations of the witness put on the wire,
    after the listing of the actions. *)
Lemma set_requests_on_the_wire :
  map rq_json (w_trace (wld (set_on_off "A1" false signed_in actions_world)))
    = [None; Some (invoke_payload (PStr "act-1") "A1" "0")] /\
  map rq_json (w_trace (wld (set_humidity_reference "A1" 45 signed_in actions_world)))
    = [None; Some (invoke_payload (PStr "act-2") "A1" "45")].
Proof. vm_compute. split; reflexivity. Qed.

(** * Further properties of the client *)

(** ** What a failed sign-in or a failed refresh leaves behind *)

Lemma same_fields_trans s1 s2 s3 :
  same_fields s1 s2 -> same_fields s2 s3 -> same_fields s1 s3.
Proof.
  intros (A1 & A2 & A3 & A4 & A5 & A6) (B1 & B2 & B3 & B4 & B5 & B6).
  unfold same_fields. rewrite B1, B2, B3, B4, B5, B6. auto 10.
Qed.

Lemma authenticate_unfold u p :
  authenticate u p =
    try_except
      (do resp <- _post_request signin_endpoint (signin_payload u p);
       after_signin u p resp)
      signin_handlers.
Proof. reflexivity. Qed.

(** The outcomes of [set_expiry]: it stores an expiry and returns, or it
    raises an [OverflowError] and stores nothing. *)
Lemma set_expiry_cases n s w :
  (exists t, set_expiry n s w = (Ok tt, with_token_expires_at t s, ticked w)) \/
  set_expiry n s w = (Raise OverflowError, s, ticked w).
Proof.
  unfold set_expiry. run. unfold fadd_int, fsub_int, float_of_int.
  destruct (Z2F n); cbn; try (left; eexists; reflexivity).
  right. reflexivity.
Qed.

(** After the sign-in POST: either [False] with the client untouched, or
    [True] with the credentials set to the arguments, or an exception that
    is no [ClientError], again with the base URL kept and the credentials
    either kept or set to the arguments. *)
Lemma after_signin_cases u p resp s w :
  let o := after_signin u p resp s w in
  (res o = Ok false /\ obj o = s) \/
  ((res o = Ok true \/ exists e, res o = Raise e /\ is_ClientError e = false) /\
   _base_url (obj o) = _base_url s /\
   ((_username (obj o) = _username s /\ _password (obj o) = _password s) \/
    (_username (obj o) = Some u /\ _password (obj o) = Some p))).
Proof.
  unfold after_signin.
  destruct (isinstance_dict resp && dict_has resp "error")%bool;
    [left; split; reflexivity|].
  destruct (negb (isinstance_dict resp) || negb (dict_has resp "access_token")
            || negb (dict_has resp "refresh_token"))%bool;
    [left; split; reflexivity|].
  right. run.
  destruct (py_item resp "access_token") as [at_|e1] eqn:E1; run.
  { destruct (py_item resp "refresh_token") as [rt|e2] eqn:E2; run.
    { destruct (read_expires_in resp) as [n|e3] eqn:E3; run.
      { match goal with
        | |- context [set_expiry n ?s' ?w'] =>
            destruct (set_expiry_cases n s' w') as [[t Ht]| Ht]; rewrite Ht
        end; run.
        - split; [left; reflexivity|]. split; [reflexivity|]. right. split; reflexivity.
        - split; [right; eexists; split; reflexivity|]. split; [reflexivity|].
          right. split; reflexivity. }
      assert (He3 : is_ClientError e3 = false).
      { unfold read_expires_in, rbind, py_get in E3.
        destruct resp; try (inversion E3; reflexivity).
        destruct (py_int _) as [k|e'] eqn:Ei; [discriminate|].
        destruct (is_ValueError e') eqn:Ev; [discriminate|]. inversion E3; subst.
        destruct (default (PStr "3600") (d !! "expires_in")) as [| | |f|x| |];
          cbn in Ei; try (inversion Ei; reflexivity).
        - destruct f; cbn in Ei; inversion Ei; reflexivity.
        - apply int_of_str_raises in Ei. subst. reflexivity. }
      split; [right; eexists; split; [reflexivity|exact He3]|].
      split; [reflexivity|]. right. split; reflexivity. }
    assert (He2 : is_ClientError e2 = false).
    { destruct resp; cbn in E2; try (inversion E2; reflexivity).
      unfold dict_item in E2. destruct (d !! "refresh_token"); inversion E2. reflexivity. }
    split; [right; eexists; split; [reflexivity|exact He2]|].
    split; [reflexivity|]. left. split; reflexivity. }
  assert (He1 : is_ClientError e1 = false).
  { destruct resp; cbn in E1; try (inversion E1; reflexivity).
    unfold dict_item in E1. destruct (d !! "access_token"); inversion E1. reflexivity. }
  split; [right; eexists; split; [reflexivity|exact He1]|].
  split; [reflexivity|]. left. split; reflexivity.
Qed.

Lemma same_fields_identity s s' : same_fields s s' -> same_identity s s'.
Proof. intros (H1 & _ & _ & _ & H5 & H6). repeat split; assumption. Qed.

Lemma read_expires_in_raises resp e :
  read_expires_in resp = Raise e -> is_ClientError e = false.
Proof.
  unfold read_expires_in, rbind, py_get. intros E.
  destruct resp; try (inversion E; reflexivity).
  destruct (py_int _) as [k|e'] eqn:Ei; [discriminate|].
  destruct (is_ValueError e') eqn:Ev; [discriminate|]. inversion E; subst.
  destruct (default (PStr "3600") (d !! "expires_in")) as [| | |f|x| |];
    cbn in Ei; try (inversion Ei; reflexivity).
  - destruct f; cbn in Ei; inversion Ei; reflexivity.
  - apply int_of_str_raises in Ei. subst. reflexivity.
Qed.

(** The outcomes of [authenticate]: [False] with tokens, expiry and
    credentials untouched; or else [True] or an exception that is no
    [ClientError], with the base URL kept and the credentials either kept or
    set to the arguments. *)
Lemma authenticate_cases u p s w :
  let o := authenticate u p s w in
  (res o = Ok false /\ same_fields s (obj o)) \/
  ((res o = Ok true \/ exists e, res o = Raise e /\ is_ClientError e = false) /\
   _base_url (obj o) = _base_url s /\
   ((_username (obj o) = _username s /\ _password (obj o) = _password s) \/
    (_username (obj o) = Some u /\ _password (obj o) = Some p))).
Proof.
  rewrite authenticate_unfold. unfold try_except, bind.
  pose proof (_post_request_sent signin_endpoint (signin_payload u p) s w)
    as (_ & Hsame & _).
  pose proof (_post_request_raises signin_endpoint (signin_payload u p) s w) as Hraise.
  destruct (_post_request signin_endpoint (signin_payload u p) s w)
    as [[[resp|e] s1] w1]; cbn [res obj wld fst snd] in *.
  - pose proof (after_signin_cases u p resp s1 w1) as Hc. cbv zeta in Hc.
    destruct (after_signin u p resp s1 w1) as [[r s2] w2];
      cbn [res obj wld fst snd] in *.
    pose proof Hsame as (Hb & _ & _ & _ & Hu & Hp).
    destruct Hc as [[-> ->]|([->|(e & -> & He)] & Hb2 & Hcred)].
    + left. split; [reflexivity|exact Hsame].
    + right. cbn. split; [left; reflexivity|]. split; [congruence|].
      destruct Hcred as [[? ?]|[? ?]]; [left|right]; split; congruence.
    + right. unfold signin_handlers.
      assert (Hr : is_ClientResponseError e = false) by (destruct e; cbn in *; congruence).
      rewrite Hr, He. cbn. split; [right; eauto|]. split; [congruence|].
      destruct Hcred as [[? ?]|[? ?]]; [left|right]; split; congruence.
  - destruct (Hraise e eq_refl) as [He|Hother].
    + left. unfold signin_handlers. rewrite He.
      destruct (is_ClientResponseError e); cbn; split; auto.
    + assert (He : is_ClientError e = false)
        by (destruct Hother as [->|[->| ->]]; reflexivity).
      assert (Hr : is_ClientResponseError e = false)
        by (destruct Hother as [->|[->| ->]]; reflexivity).
      right. unfold signin_handlers. rewrite Hr, He. cbn. split; [right; eauto|].
      destruct Hsame as (Hb & _ & _ & _ & Hu & Hp). split; [exact Hb|].
      left. split; assumption.
Qed.

Lemma refresh_unfold s w :
  truthy (_refresh_token s) = true ->
  refresh_access_token s w =
    try_except
      (do resp <- _post_request refresh_endpoint (refresh_payload s);
       after_refresh resp)
      refresh_handlers s w.
Proof.
  intros H. unfold refresh_access_token. rewrite bind_self, H. reflexivity.
Qed.

Lemma careful_after_refresh resp : careful (after_refresh resp).
Proof.
  intros s w. unfold after_refresh.
  destruct (isinstance_dict resp && dict_has resp "error")%bool.
  - run.
    destruct (_username s) as [u|] eqn:Eu, (_password s) as [p|] eqn:Ep;
      try (cbn; repeat split; try reflexivity; intros; discriminate).
    destruct (truthy_str (Some u) && truthy_str (Some p))%bool;
      [|cbn; repeat split; try reflexivity; intros; discriminate].
    match goal with |- context [authenticate u p s ?w'] =>
      pose proof (authenticate_cases u p s w') as Hc; cbv zeta in Hc;
      destruct (authenticate u p s w') as [[r s2] w2]
    end.
    cbn [res obj wld fst snd] in *.
    destruct Hc as [[-> Hs]|([->|(e & -> & He)] & Hb & Hcred)].
    + split; [apply same_fields_identity; exact Hs|]. split; [auto|].
      intros e H; discriminate.
    + split; [|split; intros; discriminate].
      unfold same_identity. destruct Hcred as [[? ?]|[? ?]]; repeat split; congruence.
    + split; [|split; [intros; discriminate|intros e' H; inversion H; subst; exact He]].
      unfold same_identity. destruct Hcred as [[? ?]|[? ?]]; repeat split; congruence.
  - run.
    destruct (py_get resp "access_token" PNone) as [at_|e1] eqn:E1; run.
    2: { destruct resp; cbn in E1; inversion E1; subst.
         all: repeat split; try discriminate; intros e H; inversion H; reflexivity. }
    destruct (py_get resp "refresh_token" PNone) as [rt|e2] eqn:E2; run.
    2: { destruct resp; cbn in E2; inversion E2; subst.
         all: repeat split; try discriminate; intros e H; inversion H; reflexivity. }
    destruct (read_expires_in resp) as [n|e3] eqn:E3; run.
    2: { apply read_expires_in_raises in E3.
         repeat split; try discriminate. intros e H; inversion H; subst; exact E3. }
    match goal with
    | |- context [set_expiry n ?s' ?w'] =>
        destruct (set_expiry_cases n s' w') as [[t Ht]| Ht]; rewrite Ht
    end; run.
    + repeat split; try discriminate.
    + repeat split; try discriminate. intros e H; inversion H; reflexivity.
Qed.

Lemma careful_refresh_access_token : careful refresh_access_token.
Proof.
  intros s w. destruct (truthy (_refresh_token s)) eqn:Hrt.
  2: { rewrite (refresh_no_token s w Hrt). cbn. repeat split. intros; discriminate. }
  rewrite (refresh_unfold s w Hrt). unfold try_except, bind.
  pose proof (_post_request_sent refresh_endpoint (refresh_payload s) s w)
    as (_ & Hsame & _).
  pose proof (_post_request_raises refresh_endpoint (refresh_payload s) s w) as Hraise.
  destruct (_post_request refresh_endpoint (refresh_payload s) s w)
    as [[[resp|e] s1] w1]; cbn [res obj wld fst snd] in *.
  - pose proof (careful_after_refresh resp s1 w1) as (Hid & Hfalse & Hconf).
    destruct (after_refresh resp s1 w1) as [[[b|e] s2] w2];
      cbn [res obj wld fst snd] in *.
    + split; [|split; [|intros; discriminate]].
      * destruct (same_fields_identity _ _ Hsame) as (? & ? & ?).
        destruct Hid as (? & ? & ?). repeat split; congruence.
      * intros H. eapply same_fields_trans; eauto.
    + unfold refresh_handlers. rewrite (Hconf e eq_refl). cbn.
      split; [|split; [intros; discriminate|intros e' H; inversion H; subst; auto]].
      destruct (same_fields_identity _ _ Hsame) as (? & ? & ?).
      destruct Hid as (? & ? & ?). repeat split; congruence.
  - unfold refresh_handlers. clear Hraise. destruct (is_ClientError e) eqn:He.
    + cbn. split; [apply same_fields_identity; exact Hsame|].
      split; [auto|intros; discriminate].
    + cbn. split; [apply same_fields_identity; exact Hsame|].
      split; [intros; discriminate|intros e' H; inversion H; subst; exact He].
Qed.

Lemma careful_maybe_refresh_token : careful maybe_refresh_token.
Proof.
  intros s w. destruct (truthy (_access_token s)) eqn:Hat.
  2: { rewrite (maybe_refresh_no_token s w Hat). cbn. repeat split. intros; discriminate. }
  destruct (fgeb (now w) (_token_expires_at s)) eqn:Hge.
  - rewrite (maybe_refresh_expired s w Hat Hge). apply careful_refresh_access_token.
  - rewrite (maybe_refresh_valid s w Hat Hge). cbn. repeat split. intros; discriminate.
Qed.

(** X1.  When [authenticate] returns [False], the access token, the refresh
    token, the expiry, the credentials and the base URL are what they were
    before the call. *)
Theorem authenticate_failure_keeps_state u p s w :
  res (authenticate u p s w) = Ok false ->
  same_fields s (obj (authenticate u p s w)).
Proof.
  intros H. destruct (authenticate_cases u p s w) as [[_ Hs]|([H'|(e & H' & _)] & _)].
  - exact Hs.
  - rewrite H in H'. discriminate.
  - rewrite H in H'. discriminate.
Qed.

(** A rejected sign-in on a client that holds tokens and credentials. *)
Lemma authenticate_failure_keeps_state_witness :
  same_fields stale_with_credentials
    (obj (authenticate "other" "wrong" stale_with_credentials all_errors_world)).
Proof.
  apply authenticate_failure_keeps_state. vm_compute. reflexivity.
Defined.

(** X2.  When [maybe_refresh_token] or [refresh_access_token] returns
    [False], the tokens, the expiry and the credentials are what they were
    before, also when the re-authentication fallback has run. *)
Theorem failed_check_keeps_state s w :
  (res (maybe_refresh_token s w) = Ok false ->
   same_fields s (obj (maybe_refresh_token s w))) /\
  (res (refresh_access_token s w) = Ok false ->
   same_fields s (obj (refresh_access_token s w))).
Proof.
  split.
  - apply (careful_maybe_refresh_token s w).
  - apply (careful_refresh_access_token s w).
Qed.

(** The refresh is refused and so is the sign-in that follows. *)
Lemma failed_check_keeps_state_witness :
  res (maybe_refresh_token stale_with_credentials all_errors_world) = Ok false /\
  same_fields stale_with_credentials
    (obj (maybe_refresh_token stale_with_credentials all_errors_world)).
Proof.
  split; [vm_compute; reflexivity|].
  apply (proj1 (failed_check_keeps_state stale_with_credentials all_errors_world)).
  vm_compute. reflexivity.
Defined.

(** ** Closure rules *)

Lemma keeps_identity_refl s : same_identity s s.
Proof. repeat split. Qed.

Lemma same_identity_trans s1 s2 s3 :
  same_identity s1 s2 -> same_identity s2 s3 -> same_identity s1 s3.
Proof.
  intros (A1 & A2 & A3) (B1 & B2 & B3). unfold same_identity.
  rewrite B1, B2, B3. auto.
Qed.

Lemma keeps_identity_bind {A B} (m : M A) (k : A -> M B) :
  keeps_identity m -> (forall a, keeps_identity (k a)) -> keeps_identity (bind m k).
Proof.
  intros Hm Hk s w. unfold bind. specialize (Hm s w).
  destruct (m s w) as [[[a|e] s'] w']; cbn in *; [|assumption].
  eapply same_identity_trans; [exact Hm|apply Hk].
Qed.

Lemma keeps_identity_try_except {A} (m : M A) h :
  keeps_identity m -> (forall e k, h e = Some k -> keeps_identity k) ->
  keeps_identity (try_except m h).
Proof.
  intros Hm Hh s w. unfold try_except. specialize (Hm s w).
  destruct (m s w) as [[[a|e] s'] w']; cbn in *; [assumption|].
  destruct (h e) as [k|] eqn:E; cbn; [|assumption].
  eapply same_identity_trans; [exact Hm|eapply Hh; eauto].
Qed.

Lemma keeps_identity_ret {A} (a : A) : keeps_identity (ret a).
Proof. intros s w. apply keeps_identity_refl. Qed.

Lemma keeps_identity_lift {A} (r : result A) : keeps_identity (lift r).
Proof. destruct r; intros s w; apply keeps_identity_refl. Qed.

Lemma keeps_identity_log lv msg : keeps_identity (log lv msg).
Proof. intros s w. apply keeps_identity_refl. Qed.

Lemma keeps_identity_get ep : keeps_identity (_get_request ep).
Proof.
  intros s w. apply same_fields_identity. apply _get_request_sent.
Qed.

Lemma keeps_identity_post ep data : keeps_identity (_post_request ep data).
Proof.
  intros s w. apply same_fields_identity. apply _post_request_sent.
Qed.

Lemma keeps_identity_maybe_refresh_token : keeps_identity maybe_refresh_token.
Proof. intros s w. apply (careful_maybe_refresh_token s w). Qed.

Create HintDb identity.
#[local] Hint Resolve keeps_identity_ret keeps_identity_lift keeps_identity_log
  keeps_identity_get keeps_identity_post keeps_identity_maybe_refresh_token : identity.
#[local] Hint Extern 2 (keeps_identity (bind _ _)) =>
  apply keeps_identity_bind; [|intros ?] : identity.
#[local] Hint Extern 2 (keeps_identity (if ?c then _ else _)) => destruct c : identity.

Lemma keeps_identity_invoke_action action_id uid value :
  keeps_identity (invoke_action action_id uid value).
Proof.
  unfold invoke_action. apply keeps_identity_bind; [auto with identity|intros _].
  apply keeps_identity_try_except; [auto 10 with identity|].
  intros e k. destruct (is_ClientError e); intros H; inversion H.
  auto 10 with identity.
Qed.

Lemma keeps_identity_get_actions uid : keeps_identity (get_actions uid).
Proof.
  unfold get_actions. apply keeps_identity_bind; [auto with identity|intros _].
  apply keeps_identity_bind; [auto with identity|intros resp].
  destruct resp; auto 10 with identity.
Qed.

(** X3.  No operation of the client but [authenticate] itself changes the
    stored username, the stored password or the base URL: not the refresh,
    with or without its re-authentication fallback, not the validity check,
    not the data and action calls, whether they return or raise. *)
Theorem credentials_are_kept :
  keeps_identity refresh_access_token /\
  keeps_identity maybe_refresh_token /\
  keeps_identity get_devices /\
  (forall uid, keeps_identity (get_latest_datapoints uid)) /\
  (forall uid, keeps_identity (get_actions uid)) /\
  (forall action_id uid value, keeps_identity (invoke_action action_id uid value)) /\
  (forall uid turn_on, keeps_identity (set_on_off uid turn_on)) /\
  (forall uid humidity, keeps_identity (set_humidity_reference uid humidity)).
Proof.
  repeat match goal with |- _ /\ _ => split end.
  - intros s w. apply (careful_refresh_access_token s w).
  - apply keeps_identity_maybe_refresh_token.
  - unfold get_devices. auto 10 with identity.
  - intros uid. unfold get_latest_datapoints.
    apply keeps_identity_bind; [auto with identity|intros _].
    apply keeps_identity_bind; [auto with identity|intros raw].
    destruct raw; auto 10 with identity.
  - apply keeps_identity_get_actions.
  - apply keeps_identity_invoke_action.
  - intros uid turn_on. unfold set_on_off.
    apply keeps_identity_bind; [apply keeps_identity_get_actions|intros acts].
    apply keeps_identity_bind; [auto with identity|intros a].
    destruct (negb (truthy a)); [auto 10 with identity|].
    apply keeps_identity_bind; [auto with identity|intros i].
    apply keeps_identity_invoke_action.
  - intros uid humidity. unfold set_humidity_reference.
    apply keeps_identity_bind; [apply keeps_identity_get_actions|intros acts].
    apply keeps_identity_bind; [auto with identity|intros a].
    destruct (negb (truthy a)); [auto 10 with identity|].
    apply keeps_identity_bind; [auto with identity|intros i].
    apply keeps_identity_invoke_action.
Qed.

(** ** No [ClientError] escapes the token operations *)

Lemma confines_bind {A B} (m : M A) (k : A -> M B) :
  confines m -> (forall a, confines (k a)) -> confines (bind m k).
Proof.
  intros Hm Hk s w e. unfold bind. specialize (Hm s w).
  destruct (m s w) as [[[a|e'] s'] w']; cbn in *; [apply Hk|].
  intros H. inversion H; subst. apply Hm. reflexivity.
Qed.

(** X4.  Neither an HTTP status error nor a transport error ever comes out
    of [authenticate], [refresh_access_token], [maybe_refresh_token] or
    [invoke_action]: whatever these raise is no [ClientError]. *)
Theorem client_errors_are_confined :
  (forall u p, confines (authenticate u p)) /\
  confines refresh_access_token /\
  confines maybe_refresh_token /\
  (forall action_id uid value, confines (invoke_action action_id uid value)).
Proof.
  split; [|split; [|split]].
  - intros u p s w e H.
    destruct (authenticate_cases u p s w) as [[H' _]|([H'|(e' & H' & He)] & _)];
      rewrite H in H'; inversion H'; subst; assumption.
  - intros s w. apply (careful_refresh_access_token s w).
  - intros s w. apply (careful_maybe_refresh_token s w).
  - intros action_id uid value. unfold invoke_action.
    apply confines_bind; [intros s w; apply (careful_maybe_refresh_token s w)|intros _].
    intros s w e. unfold try_except, bind.
    pose proof (_post_request_raises invoke_endpoint
                  (invoke_payload action_id uid value) s w) as Hraise.
    destruct (_post_request invoke_endpoint _ s w) as [[[resp|e'] s1] w1];
      cbn [res fst] in *.
    + destruct (isinstance_dict resp && dict_has resp "error")%bool; cbn; discriminate.
    + clear Hraise. destruct (is_ClientError e') eqn:He.
      * cbn. discriminate.
      * cbn. intros H. inversion H; subst. exact He.
Qed.

(** With every endpoint answering HTTP 503, the status error stays inside:
    the invocation answers [False]. *)
Lemma client_errors_are_confined_witness :
  res (invoke_action (PStr "act-1") "A1" "1" signed_in unavailable_world)
    <> Raise ClientResponseError /\
  res (invoke_action (PStr "act-1") "A1" "1" signed_in unavailable_world) = Ok false.
Proof.
  split; [|vm_compute; reflexivity].
  intros H.
  apply (proj2 (proj2 (proj2 client_errors_are_confined))) in H.
  discriminate.
Defined.

(** ** How many requests an operation can cost *)

Lemma sends_quiet {A} (m : M A) : quiet m -> sends_at_most 0 m.
Proof. intros H s w. exists []. rewrite H, app_nil_r. split; [reflexivity|cbn; lia]. Qed.

Lemma sends_more {A} (m : M A) n n' :
  (n <= n')%nat -> sends_at_most n m -> sends_at_most n' m.
Proof. intros Hle H s w. destruct (H s w) as (rest & Hr & Hl). exists rest. split; [assumption|lia]. Qed.

Lemma sends_bind {A B} (m : M A) (k : A -> M B) n n' :
  sends_at_most n m -> (forall a, sends_at_most n' (k a)) ->
  sends_at_most (n + n') (bind m k).
Proof.
  intros Hm Hk s w. unfold bind. destruct (Hm s w) as (r1 & H1 & L1).
  destruct (m s w) as [[[a|e] s'] w']; cbn in *.
  - destruct (Hk a s' w') as (r2 & H2 & L2). exists (r1 ++ r2).
    rewrite H2, H1, <- app_assoc, length_app. split; [reflexivity|lia].
  - exists r1. split; [assumption|lia].
Qed.

Lemma sends_try_except {A} (m : M A) h n n' :
  sends_at_most n m -> (forall e k, h e = Some k -> sends_at_most n' k) ->
  sends_at_most (n + n') (try_except m h).
Proof.
  intros Hm Hh s w. unfold try_except. destruct (Hm s w) as (r1 & H1 & L1).
  destruct (m s w) as [[[a|e] s'] w']; cbn in *.
  - exists r1. split; [assumption|lia].
  - destruct (h e) as [k|] eqn:E; cbn.
    + destruct (Hh e k E s' w') as (r2 & H2 & L2). exists (r1 ++ r2).
      rewrite H2, H1, <- app_assoc, length_app. split; [reflexivity|lia].
    + exists r1. split; [assumption|lia].
Qed.

Lemma sends_post_request ep data : sends_at_most 1 (_post_request ep data).
Proof.
  intros s w. destruct (_post_request_sent ep data s w) as (H & _). rewrite H.
  destruct (header_safe _); eexists; split;
    [reflexivity|cbn; lia|symmetry; apply app_nil_r|cbn; lia].
Qed.

Lemma sends_get_request ep : sends_at_most 1 (_get_request ep).
Proof.
  intros s w. destruct (_get_request_sent ep s w) as (H & _). rewrite H.
  destruct (header_safe _); eexists; split;
    [reflexivity|cbn; lia|symmetry; apply app_nil_r|cbn; lia].
Qed.

Lemma sends_authenticate u p : sends_at_most 1 (authenticate u p).
Proof.
  intros s w. rewrite authenticate_trace.
  destruct (header_safe _); eexists; split;
    [reflexivity|cbn; lia|symmetry; apply app_nil_r|cbn; lia].
Qed.

Lemma sends_after_refresh resp : sends_at_most 1 (after_refresh resp).
Proof.
  unfold after_refresh.
  destruct (isinstance_dict resp && dict_has resp "error")%bool.
  - apply (sends_bind _ _ 0 1); [apply sends_quiet; auto with quiet|intros _].
    apply (sends_bind _ _ 0 1); [apply sends_quiet; auto with quiet|intros me].
    destruct (_username me) as [u|], (_password me) as [p|];
      try solve [apply (sends_more _ 0); [lia|apply sends_quiet; auto 10 with quiet]].
    destruct (truthy_str (Some u) && truthy_str (Some p))%bool.
    + apply (sends_bind _ _ 0 1); [apply sends_quiet; auto with quiet|intros _].
      apply sends_authenticate.
    + apply (sends_more _ 0); [lia|apply sends_quiet; auto 10 with quiet].
  - apply (sends_more _ 0); [lia|apply sends_quiet; auto 20 with quiet].
Qed.

Lemma sends_refresh_access_token : sends_at_most 2 refresh_access_token.
Proof.
  intros s w. destruct (truthy (_refresh_token s)) eqn:Hrt.
  - rewrite (refresh_unfold s w Hrt).
    apply (sends_try_except _ _ 2 0).
    + apply (sends_bind _ _ 1 1); [apply sends_post_request|apply sends_after_refresh].
    + intros e k. unfold refresh_handlers. destruct (is_ClientError e);
        intros H; inversion H. apply sends_quiet. auto 10 with quiet.
  - rewrite (refresh_no_token s w Hrt). exists []. cbn.
    rewrite app_nil_r. split; [reflexivity|lia].
Qed.

Lemma sends_maybe_refresh_token : sends_at_most 2 maybe_refresh_token.
Proof.
  intros s w. destruct (truthy (_access_token s)) eqn:Hat.
  - destruct (fgeb (now w) (_token_expires_at s)) eqn:Hge.
    + rewrite (maybe_refresh_expired s w Hat Hge).
      exact (sends_refresh_access_token s (logged DEBUG expired_msg (ticked w))).
    + rewrite (maybe_refresh_valid s w Hat Hge). exists []. cbn.
      rewrite app_nil_r. split; [reflexivity|lia].
  - rewrite (maybe_refresh_no_token s w Hat). exists []. cbn.
    rewrite app_nil_r. split; [reflexivity|lia].
Qed.

Lemma sends_get_actions uid : sends_at_most 3 (get_actions uid).
Proof.
  unfold get_actions.
  apply (sends_bind _ _ 2 1); [apply sends_maybe_refresh_token|intros _].
  apply (sends_bind _ _ 1 0); [apply sends_get_request|intros resp].
  apply sends_quiet. apply quiet_after_actions.
Qed.

Lemma sends_invoke_action action_id uid value :
  sends_at_most 3 (invoke_action action_id uid value).
Proof.
  unfold invoke_action.
  apply (sends_bind _ _ 2 1); [apply sends_maybe_refresh_token|intros _].
  apply (sends_try_except _ _ 1 0).
  - apply (sends_bind _ _ 1 0); [apply sends_post_request|intros resp].
    apply sends_quiet. auto 10 with quiet.
  - intros e k. destruct (is_ClientError e); intros H; inversion H.
    apply sends_quiet. auto 10 with quiet.
Qed.

(** X5.  There is no retry loop: a refresh or a validity check dispatches at
    most two requests (the refresh and one sign-in), each data call and each
    action invocation at most three, and [set_on_off] and
    [set_humidity_reference] at most six. *)
Theorem request_budget :
  (forall u p, sends_at_most 1 (authenticate u p)) /\
  sends_at_most 2 refresh_access_token /\
  sends_at_most 2 maybe_refresh_token /\
  sends_at_most 3 get_devices /\
  (forall uid, sends_at_most 3 (get_latest_datapoints uid)) /\
  (forall uid, sends_at_most 3 (get_actions uid)) /\
  (forall action_id uid value, sends_at_most 3 (invoke_action action_id uid value)) /\
  (forall uid turn_on, sends_at_most 6 (set_on_off uid turn_on)) /\
  (forall uid humidity, sends_at_most 6 (set_humidity_reference uid humidity)).
Proof.
  repeat match goal with |- _ /\ _ => split end.
  - apply sends_authenticate.
  - apply sends_refresh_access_token.
  - apply sends_maybe_refresh_token.
  - unfold get_devices.
    apply (sends_bind _ _ 2 1); [apply sends_maybe_refresh_token|intros _].
    apply (sends_bind _ _ 1 0); [apply sends_get_request|intros resp].
    apply sends_quiet. apply quiet_after_devices.
  - intros uid. unfold get_latest_datapoints.
    apply (sends_bind _ _ 2 1); [apply sends_maybe_refresh_token|intros _].
    apply (sends_bind _ _ 1 0); [apply sends_get_request|intros resp].
    apply sends_quiet. apply quiet_after_datapoints.
  - apply sends_get_actions.
  - apply sends_invoke_action.
  - intros uid turn_on. unfold set_on_off.
    apply (sends_bind _ _ 3 3); [apply sends_get_actions|intros acts].
    apply (sends_bind _ _ 0 3); [apply sends_quiet; auto with quiet|intros a].
    destruct (negb (truthy a)).
    + apply (sends_more _ 0); [lia|apply sends_quiet; auto 10 with quiet].
    + apply (sends_bind _ _ 0 3); [apply sends_quiet; auto with quiet|intros i].
      apply sends_invoke_action.
  - intros uid humidity. unfold set_humidity_reference.
    apply (sends_bind _ _ 3 3); [apply sends_get_actions|intros acts].
    apply (sends_bind _ _ 0 3); [apply sends_quiet; auto with quiet|intros a].
    destruct (negb (truthy a)).
    + apply (sends_more _ 0); [lia|apply sends_quiet; auto 10 with quiet].
    + apply (sends_bind _ _ 0 3); [apply sends_quiet; auto with quiet|intros i].
      apply sends_invoke_action.
Qed.

(** The bound of six is reached: tokens that are never within their margin
    cost a refresh and a sign-in before the listing and again before the
    invocation. *)
Lemma request_budget_witness :
  (length (w_trace (wld (set_on_off "A1" true stale_with_credentials short_lived_world)))
     <= 6)%nat /\
  map rq_url (w_trace (wld (set_on_off "A1" true stale_with_credentials short_lived_world)))
    = [api refresh_endpoint; api signin_endpoint; api (actions_endpoint "A1");
       api refresh_endpoint; api signin_endpoint; api invoke_endpoint].
Proof.
  split; [|vm_compute; reflexivity].
  destruct (proj1 (proj2 (proj2 (proj2 (proj2 (proj2 (proj2 (proj2 request_budget)))))))
              "A1" true stale_with_credentials short_lived_world)
    as (rest & Hrest & Hlen).
  rewrite Hrest. exact Hlen.
Defined.

(** ** The dispatcher and what the methods make of its answers *)

(** X6.  The data calls do not catch what the dispatcher raises.  Once the
    validity check has returned and the request has gone out (the token
    held fits a header), a listing, datapoint or action request that is
    answered by a status of 400 or more, or not answered at all, makes
    [get_devices], [get_latest_datapoints] and [get_actions] raise the
    [ClientError]; and when [get_actions] raises, so do [set_on_off] and
    [set_humidity_reference]. *)
Theorem data_calls_let_client_errors_through s w b e :
  let o0 := maybe_refresh_token s w in
  let answer ep := w_server (wld o0) (w_trace (wld o0)) (get_rq (obj o0) ep) in
  res o0 = Ok b ->
  header_safe (_get_auth_header (obj o0)) = true ->
  is_ClientError e = true ->
  (read_reply (answer devices_endpoint) = Raise e ->
   res (get_devices s w) = Raise e) /\
  (forall uid,
      read_reply (answer (datapoints_endpoint uid)) = Raise e ->
      res (get_latest_datapoints uid s w) = Raise e) /\
  (forall uid,
      read_reply (answer (actions_endpoint uid)) = Raise e ->
      res (get_actions uid s w) = Raise e /\
      (forall turn_on, res (set_on_off uid turn_on s w) = Raise e) /\
      (forall humidity, res (set_humidity_reference uid humidity s w) = Raise e)).
Proof.
  intros o0 answer H0 Hsafe He. subst answer. cbv beta. subst o0.
  split; [|split].
  - intros H. unfold get_devices. rewrite (after_validation _ s w b H0).
    apply bind_raises. rewrite _get_request_reply, Hsafe. exact H.
  - intros uid H. unfold get_latest_datapoints. rewrite (after_validation _ s w b H0).
    apply bind_raises. rewrite _get_request_reply, Hsafe. exact H.
  - intros uid H.
    assert (Hget : res (get_actions uid s w) = Raise e).
    { unfold get_actions. rewrite (after_validation _ s w b H0).
      apply bind_raises. rewrite _get_request_reply, Hsafe. exact H. }
    split; [exact Hget|]. split; intros x.
    + unfold set_on_off. apply bind_raises. exact Hget.
    + unfold set_humidity_reference. apply bind_raises. exact Hget.
Qed.

(** With the service answering HTTP 503, turning the device on raises. *)
Lemma data_calls_let_client_errors_through_witness :
  res (get_devices signed_in unavailable_world) = Raise ClientResponseError /\
  res (set_on_off "A1" true signed_in unavailable_world) = Raise ClientResponseError.
Proof.
  destruct (data_calls_let_client_errors_through signed_in unavailable_world
              true ClientResponseError eq_refl eq_refl eq_refl) as (Hd & _ & Ha).
  split; [apply Hd; reflexivity|].
  apply (Ha "A1"). reflexivity.
Defined.

Lemma read_reply_plain_text st body :
  (st < 400)%Z -> read_reply (Reply st false body) = Ok (PDict ∅).
Proof.
  intros H. unfold read_reply.
  destruct (400 <=? st)%Z eqn:E; [apply Z.leb_le in E; lia|reflexivity].
Qed.

(** X7.  An answer below status 400 whose content type is not JSON, and
    whose body is text, counts as the empty mapping, whatever the text.  So
    a sign-in answered that way fails; a refresh answered that way reports
    success and erases both tokens; and an action invocation answered that
    way reports success.  When the body of an answer below 400 is not text
    in the character set of the response, reading it raises
    [UnicodeDecodeError], which none of the three calls catches. *)
Theorem plain_text_answers st body :
  (st < 400)%Z ->
  (forall u p s w,
      header_safe (_get_auth_header s) = true ->
      let answer :=
        w_server w (w_trace w) (post_rq s signin_endpoint (signin_payload u p)) in
      (answer = Reply st false body -> res (authenticate u p s w) = Ok false) /\
      (answer = Garbled st -> res (authenticate u p s w) = Raise UnicodeDecodeError)) /\
  (forall s w,
      truthy (_refresh_token s) = true ->
      header_safe (_get_auth_header s) = true ->
      let answer :=
        w_server w (w_trace w) (post_rq s refresh_endpoint (refresh_payload s)) in
      let o := refresh_access_token s w in
      (answer = Reply st false body ->
       res o = Ok true /\ _access_token (obj o) = PNone /\ _refresh_token (obj o) = PNone) /\
      (answer = Garbled st -> res o = Raise UnicodeDecodeError)) /\
  (forall action_id uid value s w b,
      let o0 := maybe_refresh_token s w in
      res o0 = Ok b ->
      header_safe (_get_auth_header (obj o0)) = true ->
      let answer :=
        w_server (wld o0) (w_trace (wld o0))
          (post_rq (obj o0) invoke_endpoint (invoke_payload action_id uid value)) in
      (answer = Reply st false body ->
       res (invoke_action action_id uid value s w) = Ok true) /\
      (answer = Garbled st ->
       res (invoke_action action_id uid value s w) = Raise UnicodeDecodeError)).
Proof.
  intros Hst.
  assert (Hgarbled : read_reply (Garbled st) = Raise UnicodeDecodeError).
  { unfold read_reply.
    destruct (400 <=? st)%Z eqn:E; [apply Z.leb_le in E; lia|reflexivity]. }
  split; [|split].
  - intros u p s w Hsafe answer. subst answer.
    pose proof (_post_request_reply signin_endpoint (signin_payload u p) s w) as Hr.
    rewrite Hsafe in Hr. split; intros Hans; rewrite Hans in Hr.
    + rewrite (read_reply_plain_text _ _ Hst) in Hr.
      rewrite (authenticate_missing_token u p s w ∅ _ _ (outcome_eta _ _ Hr)).
      * reflexivity.
      * apply lookup_empty.
      * left. apply lookup_empty.
    + rewrite Hgarbled in Hr. unfold authenticate.
      apply try_bind_raises; [exact Hr|reflexivity].
  - intros s w Hrt Hsafe answer o. subst answer o.
    pose proof (_post_request_reply refresh_endpoint (refresh_payload s) s w) as Hr.
    rewrite Hsafe in Hr. split; intros Hans; rewrite Hans in Hr.
    + rewrite (read_reply_plain_text _ _ Hst) in Hr.
      rewrite (refresh_stores s w ∅ _ _ 3600 (Z2F 3600) Hrt (outcome_eta _ _ Hr)).
      * cbn [res obj fst snd]. rewrite !lookup_empty. repeat split.
      * apply lookup_empty.
      * apply read_expires_in_absent. apply lookup_empty.
      * reflexivity.
    + rewrite Hgarbled in Hr. rewrite (refresh_unfold s w Hrt).
      apply try_bind_raises; [exact Hr|reflexivity].
  - intros action_id uid value s w b o0 H0 Hsafe answer. subst answer.
    unfold invoke_action. rewrite (after_validation _ s w b H0). fold o0.
    pose proof (_post_request_reply invoke_endpoint
                  (invoke_payload action_id uid value) (obj o0) (wld o0)) as Hr.
    rewrite Hsafe in Hr. split; intros Hans; rewrite Hans in Hr.
    + rewrite (read_reply_plain_text _ _ Hst) in Hr.
      unfold try_except, bind. rewrite (outcome_eta _ _ Hr). reflexivity.
    + rewrite Hgarbled in Hr. apply try_bind_raises; [exact Hr|reflexivity].
Qed.

(** A service that answers everything with 200 and plain text logs the
    client out through its own refresh. *)
Lemma plain_text_answers_witness :
  let o := refresh_access_token stale_with_credentials plain_text_world in
  res o = Ok true /\ _access_token (obj o) = PNone /\ _refresh_token (obj o) = PNone.
Proof.
  apply (proj1 (proj2 (plain_text_answers 200 None ltac:(lia))));
    reflexivity.
Defined.

(** The same client on a service whose answers are no text at all: the
    refresh raises. *)
Lemma garbled_refresh_raises :
  res (refresh_access_token stale_with_credentials garbled_world)
  = Raise UnicodeDecodeError.
Proof. reflexivity. Qed.

(** ** Closing the session *)

(** Every request leaves an open session behind. *)
Lemma _get_request_opens ep s w :
  _session (obj (_get_request ep s w)) = Some SessionOpen.
Proof.
  unfold _get_request, _ensure_session. run.
  destruct (_session s) as [[|]|] eqn:Es; run;
    (destruct (header_safe _); [|first [exact Es | reflexivity]]);
    match goal with |- context [w_server ?a ?b ?c] => destruct (w_server a b c) as [|st js [v|]|st] end;
    run; try destruct (400 <=? st)%Z; try destruct js; run;
    first [exact Es | reflexivity].
Qed.

Lemma _post_request_opens ep data s w :
  _session (obj (_post_request ep data s w)) = Some SessionOpen.
Proof.
  unfold _post_request, _ensure_session. run.
  destruct (_session s) as [[|]|] eqn:Es; run;
    (destruct (header_safe _); [|first [exact Es | reflexivity]]);
    match goal with |- context [w_server ?a ?b ?c] => destruct (w_server a b c) as [|st js [v|]|st] end;
    run; try destruct (400 <=? st)%Z; try destruct js; run;
    first [exact Es | reflexivity].
Qed.

(** X8.  [close_session] returns without touching the network, the tokens
    or the credentials, and leaves no open session behind; closing again
    changes nothing and logs nothing; and the next request opens a session
    anew. *)
Theorem close_session_is_safe s w :
  let o := close_session s w in
  res o = Ok tt /\
  same_fields s (obj o) /\
  _session (obj o) <> Some SessionOpen /\
  w_trace (wld o) = w_trace w /\
  close_session (obj o) (wld o) = (Ok tt, obj o, wld o) /\
  (forall ep, _session (obj (_get_request ep (obj o) (wld o))) = Some SessionOpen) /\
  (forall ep data,
      _session (obj (_post_request ep data (obj o) (wld o))) = Some SessionOpen).
Proof.
  intros o.
  assert (Hcases :
    (o = (Ok tt, with_session None s, logged DEBUG "Closed aiohttp session." w)) \/
    (o = (Ok tt, s, w) /\ _session s <> Some SessionOpen)).
  { subst o. unfold close_session. run.
    destruct (_session s) as [[|]|]; run; [left|right|right];
      try reflexivity; split; try reflexivity; discriminate. }
  split; [destruct Hcases as [->|[-> _]]; reflexivity|].
  split; [destruct Hcases as [->|[-> _]]; repeat split|].
  split; [destruct Hcases as [->|[-> H]]; [discriminate|exact H]|].
  split; [destruct Hcases as [->|[-> _]]; reflexivity|].
  split; [|split; intros; [apply _get_request_opens|apply _post_request_opens]].
  destruct Hcases as [->|[-> H]]; cbn [obj wld fst snd].
  - reflexivity.
  - unfold close_session. run. destruct (_session s) as [[|]|]; run;
      [contradiction H|..]; reflexivity.
Qed.

(** Closing an open session twice: the second call finds nothing to do. *)
Lemma close_session_is_safe_witness :
  let o := close_session signed_in silent_world in
  _session (obj o) = None /\
  w_log (wld (close_session (obj o) (wld o))) = [(DEBUG, "Closed aiohttp session.")].
Proof.
  intros o. subst o. split; [reflexivity|].
  rewrite (proj1 (proj2 (proj2 (proj2 (proj2 (close_session_is_safe signed_in silent_world)))))).
  reflexivity.
Defined.

(** ** The shape of a snapshot *)

Lemma parse_datapoint_shape parsed dp parsed' :
  well_shaped parsed ->
  parse_datapoint parsed dp = Ok parsed' ->
  well_shaped parsed'.
Proof.
  intros Hw. destruct dp as [| | | | | |d]; try discriminate.
  unfold parse_datapoint, py_get, rbind.
  destruct (numeric_of (default PNone (d !! "value"))) as [nv|e]; [|discriminate].
  assert (Hins : forall field f, 
             (field = "humidity_avg" \/ field = "temperature_avg" \/ field = "target_humidity") ->
             well_shaped (<[field := PFloat f]> parsed)).
  { intros field f Hf k v Hk. apply lookup_insert_Some in Hk.
    destruct Hk as [[<- <-]|[_ Hk]]; [left; eauto|apply Hw; exact Hk]. }
  destruct nv as [f|]; cbn [is_not_none num];
    rewrite ?andb_true_r, ?andb_false_r;
    repeat match goal with
           | |- context [if ?c then _ else _] => destruct c
           end;
    intros H; inversion H; subst;
    first [ exact Hw
          | apply Hins; tauto
          | intros k v Hk; apply lookup_insert_Some in Hk;
            destruct Hk as [[<- <-]|[_ Hk]]; [right; eauto|apply Hw; exact Hk] ].
Qed.

Lemma parse_datapoints_shape l parsed snap :
  well_shaped parsed -> parse_datapoints parsed l = Ok snap -> well_shaped snap.
Proof.
  revert parsed. induction l as [|dp l IH]; intros parsed Hw; cbn.
  - intros H. inversion H. subst. exact Hw.
  - destruct (parse_datapoint parsed dp) as [p|e] eqn:E; cbn; [|discriminate].
    apply IH. eapply parse_datapoint_shape; eauto.
Qed.

Lemma fetched_snapshot_shape uid s w snap :
  res (get_latest_datapoints uid s w) = Ok snap -> well_shaped snap.
Proof.
  unfold get_latest_datapoints, bind.
  destruct (maybe_refresh_token s w) as [[[b|e] s0] w0]; [|discriminate].
  destruct (_get_request (datapoints_endpoint uid) s0 w0) as [[[raw|e] s1] w1];
    [|discriminate].
  assert (Hempty : well_shaped ∅)
    by (intros k v Hk; rewrite lookup_empty in Hk; discriminate).
  destruct raw as [| | | | |l|]; cbn; try (intros H; inversion H; subst; exact Hempty).
  destruct (parse_datapoints ∅ l) as [p|e] eqn:E; cbn; [|discriminate].
  intros H. inversion H. subst. eapply parse_datapoints_shape; eauto.
Qed.

(** X9.  Whatever the service sends, a snapshot that
    [get_latest_datapoints] returns holds no other keys than
    [humidity_avg], [temperature_avg], [target_humidity] and [is_on]; the
    first three are floats and [is_on] is a boolean. *)
Theorem snapshot_shape uid s w snap :
  res (get_latest_datapoints uid s w) = Ok snap -> well_shaped snap.
Proof. exact (fetched_snapshot_shape uid s w snap). Qed.

(** The readings of [mixed_world]: the unknown name and the unparsable and
    absent values leave no trace in the snapshot. *)
Lemma snapshot_shape_witness :
  well_shaped {[ "temperature_avg" := PFloat (Z2F 21); "is_on" := PBool true ]}.
Proof.
  apply (snapshot_shape "A1" signed_in mixed_world). vm_compute. reflexivity.
Defined.

(** ** When the parsing loop cannot fail *)

Lemma float_of_str_raises s e : float_of_str s = Raise e -> e = ValueError.
Proof.
  unfold float_of_str.
  destruct (drop_underscores _ _) as [t|]; [|congruence].
  destruct (take_sign t) as [neg body].
  destruct (parse_decimal neg body); [discriminate|].
  destruct (parse_inf_or_nan neg body); congruence.
Qed.

Lemma numeric_of_scalar v : scalar_value v -> exists nv, numeric_of v = Ok nv.
Proof.
  destruct v as [|b|z|f|x|l|d]; cbn [scalar_value]; intros H;
    try contradiction; unfold numeric_of, py_float.
  - eauto.
  - eauto.
  - destruct H as [f ->]. eauto.
  - eauto.
  - destruct (float_of_str x) as [f|e] eqn:E; [eauto|].
    apply float_of_str_raises in E. subst. cbn. eauto.
Qed.

Lemma parse_datapoint_plain parsed dp :
  plain_entry dp -> exists parsed', parse_datapoint parsed dp = Ok parsed'.
Proof.
  destruct dp as [| | | | | |d]; cbn [plain_entry]; try contradiction.
  intros H. destruct (numeric_of_scalar _ H) as [nv Hnv].
  rewrite (parse_datapoint_by_name parsed d nv Hnv). eauto.
Qed.

(** X10.  The parsing loop of [get_latest_datapoints] cannot fail on raw
    data whose entries are mappings with a value that is absent, [None], a
    string, a boolean, a float or an integer in the range of a float: once
    the validity check has returned and the request has been answered by
    such a list, a snapshot is returned. *)
Theorem plain_datapoints_give_a_snapshot uid s w b l :
  let o0 := maybe_refresh_token s w in
  let o1 := _get_request (datapoints_endpoint uid) (obj o0) (wld o0) in
  res o0 = Ok b ->
  res o1 = Ok (PList l) ->
  Forall plain_entry l ->
  exists snap, get_latest_datapoints uid s w = (Ok snap, obj o1, wld o1).
Proof.
  intros o0 o1 H0 H1 Hl. unfold get_latest_datapoints.
  rewrite (after_validation _ s w b H0). fold o0.
  unfold bind at 1. fold o1. rewrite (outcome_eta _ _ H1).
  assert (Hloop : forall parsed, exists snap, parse_datapoints parsed l = Ok snap).
  { clear - Hl.
    induction Hl as [|dp l Hdp Hl IH]; intros parsed; cbn [parse_datapoints];
      [eauto|].
    destruct (parse_datapoint_plain parsed dp Hdp) as [p Hp]. rewrite Hp.
    cbn [rbind]. apply IH. }
  destruct (Hloop ∅) as [snap ->]. exists snap. reflexivity.
Qed.

Lemma plain_datapoints_give_a_snapshot_witness :
  exists snap,
    get_latest_datapoints "A1" signed_in mixed_world
      = (Ok snap,
         obj (_get_request (datapoints_endpoint "A1") signed_in
                (wld (maybe_refresh_token signed_in mixed_world))),
         wld (_get_request (datapoints_endpoint "A1") signed_in
                (wld (maybe_refresh_token signed_in mixed_world)))).
Proof.
  apply (plain_datapoints_give_a_snapshot "A1" signed_in mixed_world true mixed_datapoints);
    try reflexivity.
  repeat constructor. exists (Z2F 21). reflexivity.
Defined.

(** * The humidifier entity *)

Section HumidifierEntity.
Import Humidifier.

Lemma api_call_eq {A} (m : M A) me s w :
  api_call m me s w = (res (m s w), me, obj (m s w), wld (m s w)).
Proof. unfold api_call. destruct (m s w) as [[r s'] w']. reflexivity. Qed.

Lemma api_call_lift {A} (r : result A) me s w :
  api_call (lift r) me s w = (r, me, s, w).
Proof. unfold api_call, lift. destruct r; reflexivity. Qed.

Lemma api_call_log lv msg me s w :
  api_call (log lv msg) me s w = (Ok tt, me, s, logged lv msg w).
Proof. reflexivity. Qed.

#[local] Arguments api_call : simpl never.
#[local] Arguments get_latest_datapoints : simpl never.
#[local] Arguments set_on_off : simpl never.
#[local] Arguments set_humidity_reference : simpl never.
#[local] Arguments dict_item : simpl never.
#[local] Arguments py_int : simpl never.
#[local] Arguments py_float : simpl never.
#[local] Arguments truthy : simpl never.

Lemma api_call_ret {A} (a : A) me s w : api_call (ret a) me s w = (Ok a, me, s, w).
Proof. reflexivity. Qed.

(** One step of the symbolic run of an entity method. *)
Ltac estep :=
  first
    [ rewrite api_call_lift
    | rewrite api_call_ret
    | rewrite api_call_log
    | progress cbn
    | match goal with
      | |- context [match ?x with Ok _ => _ | Raise _ => _ end] => destruct x eqn:?
      | |- context [if ?x then _ else _] => destruct x eqn:?
      end ].

Ltac eunfold :=
  unfold async_update, async_turn_on, async_turn_off, async_set_humidity,
    update_target, when, ebind, this, assign, eret.

(** The three ways a poll can go: skipped, failed fetch, or snapshot applied. *)
Lemma async_update_cases now_ me s w :
  (exists w1, async_update now_ me s w = (Ok tt, me, s, w1)) \/
  (exists e s1 w1, async_update now_ me s w = (Raise e, me, s1, w1)) \/
  (exists data s1 w1,
     (now_ - _last_update me <? cooldown)%Z = false /\
     get_latest_datapoints (_unique_id me) s w = (Ok data, s1, w1) /\
     async_update now_ me s w = apply_snapshot data me s1 w1).
Proof.
  unfold async_update, ebind, this.
  destruct (now_ - _last_update me <? cooldown)%Z eqn:Hc.
  - left. rewrite api_call_log. eauto.
  - right. rewrite api_call_eq.
    destruct (get_latest_datapoints (_unique_id me) s w) as [[[data|e] s1] w1]; cbn.
    + right. exists data, s1, w1. auto.
    + left. eauto.
Qed.

(** What applying a snapshot leaves alone. *)
Lemma apply_snapshot_frame data me s w :
  let o := apply_snapshot data me s w in
  _last_update (eent o) = _last_update me /\
  _unique_id (eent o) = _unique_id me /\
  _device_name (eent o) = _device_name me /\
  (truthy (_is_on (eent o)) = false ->
   _last_set_humidity (eent o) = _last_set_humidity me).
Proof.
  cbv zeta. unfold apply_snapshot. eunfold. unfold eent. repeat estep.
  all: repeat split; try reflexivity; intros; congruence.
Qed.

(** X11.  A poll never touches the device identity nor the time stamp of
    the cooldown, whatever the service answers and however the poll ends;
    and a poll that leaves the entity off leaves the remembered target
    [_last_set_humidity] as it was. *)
Theorem polling_leaves_bookkeeping now_ me s w :
  let o := async_update now_ me s w in
  _last_update (eent o) = _last_update me /\
  _unique_id (eent o) = _unique_id me /\
  _device_name (eent o) = _device_name me /\
  (truthy (_is_on (eent o)) = false ->
   _last_set_humidity (eent o) = _last_set_humidity me).
Proof.
  cbv zeta.
  destruct (async_update_cases now_ me s w)
    as [[w1 ->]|[(e & s1 & w1 & ->)|(data & s1 & w1 & _ & _ & ->)]];
    [cbn; tauto..|].
  apply apply_snapshot_frame.
Qed.

(** The entity after a command, by the answer of the client. *)
Lemma perform_cases c t me s w :
  let o := perform c t me s w in
  match res (client_call c me s w) with
  | Ok true =>
      eres o = Ok tt /\ _last_update (eent o) = t /\
      _unique_id (eent o) = _unique_id me /\
      _last_set_humidity (eent o) =
        match c with SetHumidity h => h | _ => _last_set_humidity me end /\
      _target_humidity (eent o) =
        match c with
        | SetHumidity h => h
        | TurnOn => _last_set_humidity me
        | TurnOff => _target_humidity me
        end
  | Ok false => eres o = Ok tt /\ eent o = me
  | Raise e => eres o = Raise e /\ eent o = me
  end.
Proof.
  cbv zeta. destruct c; unfold perform, client_call; eunfold;
    rewrite api_call_eq;
    match goal with
    | |- context [res (?m s w)] => destruct (m s w) as [[[[|]|e] s1] w1]
    end; cbn; auto.
Qed.

(** X12.  A command that the client reports as done stamps the entity with
    the clock reading [t], and a poll less than 30 seconds after [t] is
    skipped: it returns at once, sends nothing and keeps what the command
    wrote.  A command that the client does not report as done, or that
    raises, leaves the entity exactly as it was, so it starts no cooldown. *)
Theorem command_and_cooldown c t t' me s w s' w' :
  (t' - t < cooldown)%Z ->
  let o := perform c t me s w in
  let o' := async_update t' (eent o) s' w' in
  match res (client_call c me s w) with
  | Ok true =>
      _last_update (eent o) = t /\
      eres o' = Ok tt /\ eent o' = eent o /\ eapi o' = s' /\
      w_trace (ewld o') = w_trace w' /\ w_ticks (ewld o') = w_ticks w'
  | _ => eent o = me
  end.
Proof.
  intros Ht. cbv zeta.
  pose proof (perform_cases c t me s w) as H. cbv zeta in H.
  destruct (res (client_call c me s w)) as [[|]|e]; try tauto.
  destruct H as (_ & Hl & _). split; [exact Hl|].
  unfold async_update, ebind, this. rewrite Hl.
  replace (t' - t <? cooldown)%Z with true by (symmetry; apply Z.ltb_lt; exact Ht).
  rewrite api_call_log. cbn. tauto.
Qed.

(** Switching the bath device on at second 100 holds back the poll of
    second 120. *)
Lemma command_and_cooldown_witness :
  let o := perform TurnOn 100000000 bath signed_in off_world in
  _last_update (eent o) = 100000000%Z /\
  eent (async_update 120000000 (eent o) signed_in off_world) = eent o.
Proof.
  pose proof (command_and_cooldown TurnOn 100000000 120000000 bath
                signed_in off_world signed_in off_world) as H.
  cbv zeta in H.
  assert (Hs : res (client_call TurnOn bath signed_in off_world) = Ok true)
    by (vm_compute; reflexivity).
  rewrite Hs in H. cbv zeta.
  destruct H as (H1 & _ & H2 & _); [unfold cooldown, UPDATE_COOLDOWN; lia|].
  exact (conj H1 H2).
Defined.

Lemma stays_off_last_set me me' :
  stays_off me me' ->
  _last_set_humidity me' = _last_set_humidity me /\ _unique_id me' = _unique_id me.
Proof.
  induction 1 as [me|me now_ s w me' Hoff _ IH|me now_ s w me' _ IH].
  - split; reflexivity.
  - destruct IH as [IH1 IH2].
    rewrite IH1, IH2. revert Hoff. clear.
    destruct (async_update_cases now_ me s w)
      as [[w1 ->]|[(e & s1 & w1 & ->)|(data & s1 & w1 & _ & _ & ->)]];
      [cbn; tauto..|].
    destruct (apply_snapshot_frame data me s1 w1) as (_ & Hu & _ & Hs). auto.
  - destruct IH as [IH1 IH2].
    pose proof (perform_cases TurnOff now_ me s w) as H. cbv zeta in H.
    cbn [perform] in H. rewrite IH1, IH2.
    destruct (res (client_call TurnOff me s w)) as [[|]|e].
    + destruct H as (_ & _ & Hu & Hs & _). split; assumption.
    + destruct H as [_ ->]. split; reflexivity.
    + destruct H as [_ ->]. split; reflexivity.
Qed.
(** X13.  The target that was set last comes back when the device is
    switched on again: after [async_set_humidity h] was reported as done,
    no number of calls of [async_turn_off] and of polls that leave the
    entity off makes the entity forget [h], and the next [async_turn_on]
    that is reported as done shows [h] as the target, whatever target the
    polls displayed in between. *)
Theorem turn_on_restores_target h t0 me0 s0 w0 me' t s w :
  res (set_humidity_reference (_unique_id me0) h s0 w0) = Ok true ->
  stays_off (eent (async_set_humidity h t0 me0 s0 w0)) me' ->
  res (set_on_off (_unique_id me') true s w) = Ok true ->
  _target_humidity (eent (async_turn_on t me' s w)) = h.
Proof.
  intros Hset Hoff Hon.
  pose proof (perform_cases (SetHumidity h) t0 me0 s0 w0) as H0.
  pose proof (perform_cases TurnOn t me' s w) as H1.
  cbv zeta in H0, H1. cbn [perform client_call] in H0, H1.
  rewrite Hset in H0. rewrite Hon in H1.
  destruct H0 as (_ & _ & _ & Hl & _). destruct H1 as (_ & _ & _ & _ & Ht).
  destruct (stays_off_last_set _ _ Hoff) as [Hk _].
  rewrite Ht, Hk. exact Hl.
Qed.

(** The bath device: a target of 45 is set, the device is switched off and
    polled while it reports a target of 0; switched on again, it shows 45. *)
Lemma turn_on_restores_target_witness :
  _target_humidity (eent (async_turn_on 400000000 bath_polled signed_in off_world))
  = 45%Z.
Proof.
  apply (turn_on_restores_target 45 100000000 bath signed_in off_world
           bath_polled 400000000 signed_in off_world).
  - vm_compute. reflexivity.
  - eapply stays_off_turn_off. eapply stays_off_poll;
      [|apply stays_off_here].
    vm_compute. reflexivity.
  - vm_compute. reflexivity.
Defined.

Lemma int_of_float_finite f :
  finite f = true <-> exists n, int_of_float f = Ok n.
Proof.
  destruct f; cbn; split; intros H; try reflexivity; eauto;
    try discriminate; destruct H as [n H]; discriminate.
Qed.

Lemma eres_seq (m k : EM unit) me s w :
  eres ((m ;;; k) me s w) = Ok tt <->
  eres (m me s w) = Ok tt /\
  eres (k (eent (m me s w)) (eapi (m me s w)) (ewld (m me s w))) = Ok tt.
Proof.
  unfold ebind, eres, eent, eapi, ewld.
  destruct (m me s w) as [[[[[]|e] me1] s1] w1]; cbn; [tauto|].
  split; [discriminate|intros [H _]; discriminate].
Qed.

(** When the statements of [async_update] about one key complete. *)
Lemma is_on_step_completes data me s w :
  eres (when (has_key data "is_on")
          (edo v <- api_call (lift (dict_item data "is_on"));
           assign (with_is_on v)) me s w) = Ok tt.
Proof.
  unfold has_key, dict_item. eunfold.
  destruct (data !! "is_on") as [v|]; cbn; [rewrite api_call_ret|]; reflexivity.
Qed.

Lemma target_step_completes data me s w :
  (forall v, data !! "target_humidity" = Some v -> exists f, v = PFloat f) ->
  eres (when (has_key data "target_humidity") (update_target data) me s w) = Ok tt <->
  (forall f, data !! "target_humidity" = Some (PFloat f) -> finite f = true).
Proof.
  intros Hs. unfold has_key, dict_item. eunfold. unfold dict_item.
  destruct (data !! "target_humidity") as [v|]; cbn;
    [|split; [discriminate|reflexivity]].
  destruct (Hs v eq_refl) as [f ->]. rewrite api_call_ret. unfold py_int.
  rewrite api_call_lift.
  split.
  - intros H f' Hf'. injection Hf' as <-. apply int_of_float_finite.
    revert H. destruct (int_of_float f) as [n|e]; [eauto|cbn; discriminate].
  - intros H. destruct (proj1 (int_of_float_finite f) (H f eq_refl)) as [n ->].
    repeat estep; reflexivity.
Qed.

Lemma humidity_step_completes data me s w :
  (forall v, data !! "humidity_avg" = Some v -> exists f, v = PFloat f) ->
  eres (when (has_key data "humidity_avg")
          (edo v <- api_call (lift (dict_item data "humidity_avg"));
           edo n <- api_call (lift (py_int v));
           assign (with_current_humidity n)) me s w) = Ok tt <->
  (forall f, data !! "humidity_avg" = Some (PFloat f) -> finite f = true).
Proof.
  intros Hs. unfold has_key, dict_item. eunfold.
  destruct (data !! "humidity_avg") as [v|]; cbn;
    [|split; [discriminate|reflexivity]].
  destruct (Hs v eq_refl) as [f ->]. rewrite api_call_ret. unfold py_int.
  rewrite api_call_lift.
  split.
  - intros H f' Hf'. injection Hf' as <-. apply int_of_float_finite.
    revert H. destruct (int_of_float f) as [n|e]; [eauto|cbn; discriminate].
  - intros H. destruct (proj1 (int_of_float_finite f) (H f eq_refl)) as [n ->].
    reflexivity.
Qed.

Lemma temperature_step_completes data me s w :
  (forall v, data !! "temperature_avg" = Some v -> exists f, v = PFloat f) ->
  eres (when (has_key data "temperature_avg")
          (edo v <- api_call (lift (dict_item data "temperature_avg"));
           edo f <- api_call (lift (py_float v));
           assign (with_current_temp (Some f))) me s w) = Ok tt.
Proof.
  intros Hs. unfold has_key, dict_item. eunfold.
  destruct (data !! "temperature_avg") as [v|]; cbn; [|reflexivity].
  destruct (Hs v eq_refl) as [f ->]. rewrite api_call_ret. unfold py_float.
  rewrite api_call_lift. reflexivity.
Qed.

(** X14.  Once the cooldown is over and the client has returned a snapshot,
    the poll completes exactly when neither the reported target nor the
    reported humidity is an infinity or a NaN; the service can send either
    as the string of a datapoint value, and the poll then raises. *)
Theorem polling_completes now_ me s w data :
  (cooldown <= now_ - _last_update me)%Z ->
  res (get_latest_datapoints (_unique_id me) s w) = Ok data ->
  eres (async_update now_ me s w) = Ok tt <->
  (forall k f, k = "target_humidity" \/ k = "humidity_avg" ->
               data !! k = Some (PFloat f) -> finite f = true).
Proof.
  intros Hc Hd.
  pose proof (fetched_snapshot_shape _ _ _ _ Hd) as Hshape.
  assert (Hfloat : forall k v,
            k = "target_humidity" \/ k = "humidity_avg" \/ k = "temperature_avg" ->
            data !! k = Some v -> exists f, v = PFloat f).
  { intros k v Hk Hv. destruct (Hshape _ _ Hv) as [[_ Hf]|[-> _]]; [exact Hf|].
    destruct Hk as [Hk|[Hk|Hk]]; discriminate. }
  clear Hshape.
  unfold async_update at 1, ebind at 1, this at 1.
  replace (now_ - _last_update me <? cooldown)%Z with false
    by (symmetry; apply Z.ltb_ge; exact Hc).
  unfold ebind at 1. rewrite api_call_eq.
  destruct (get_latest_datapoints (_unique_id me) s w) as [[r s1] w1].
  cbn in Hd. subst r. cbn [res obj wld fst snd]. clear Hc.
  unfold apply_snapshot. rewrite !eres_seq.
  rewrite target_step_completes by (intros v; apply Hfloat; auto).
  rewrite humidity_step_completes by (intros v; apply Hfloat; auto).
  split.
  - intros (_ & Ht & Hh & _) k f [->| ->]; auto.
  - intros H. split; [apply is_on_step_completes|].
    split; [intros f; apply H; auto|].
    split; [intros f; apply H; auto|].
    apply temperature_step_completes. intros v; apply Hfloat; auto.
Qed.

(** A reference that reads as a NaN stops the poll with a [ValueError]. *)
Lemma polling_completes_witness :
  eres (async_update 300000000 bath_off signed_in off_world) = Ok tt /\
  eres (async_update 300000000 bath signed_in nan_world) = Raise ValueError.
Proof.
  split.
  - apply (polling_completes 300000000 bath_off signed_in off_world
             {[ "is_on" := PBool false; "target_humidity" := PFloat (S754_zero false);
                "humidity_avg" := PFloat F45_2 ]}).
    + vm_compute. discriminate.
    + vm_compute. reflexivity.
    + intros k f [->| ->] H; vm_compute in H; injection H as <-; reflexivity.
  - vm_compute. reflexivity.
Defined.
End HumidifierEntity.

(** * The platforms *)

Section PlatformSetup.
Import Platforms.

Lemma paired_app l unique_id device_name :
  paired l ->
  paired (l ++ [new_sensor CondairTemperatureSensor unique_id device_name;
                new_sensor CondairHumiditySensor unique_id device_name]).
Proof.
  induction 1; cbn; [apply paired_cons, paired_nil|apply paired_cons; assumption].
Qed.

(** What the loop body of the sensor platform does with a device that is a
    mapping. *)
Lemma add_sensors_mapping render d acc s w :
  let unique_id := default PNone (d !! "uniqueId") in
  let device_name := default (PStr "Unnamed Device") (d !! "instanceName") in
  res (add_sensors render (PDict d) acc s w) =
  Ok (if (truthy unique_id &&
          complete (res (get_latest_datapoints (format_value render unique_id) s w)))%bool
      then acc ++ [new_sensor CondairTemperatureSensor unique_id device_name;
                   new_sensor CondairHumiditySensor unique_id device_name]
      else acc).
Proof.
  cbv zeta. unfold add_sensors. cbn [py_get lift]. unfold bind at 1 2, ret at 1 2.
  destruct (truthy (default PNone (d !! "uniqueId"))); cbn [negb andb];
    [|reflexivity].
  unfold try_except, bind at 1.
  destruct (get_latest_datapoints _ s w) as [[[data|e] s1] w1] eqn:E;
    [|reflexivity].
  assert (Hshape : well_shaped data)
    by (eapply fetched_snapshot_shape; rewrite E; reflexivity).
  cbn [res fst complete]. unfold dict_item.
  destruct (data !! "temperature_avg") as [t|] eqn:Et; [|reflexivity].
  destruct (Hshape _ _ Et) as [[_ [f ->]]|[Hk _]]; [|discriminate].
  destruct (data !! "humidity_avg") as [h|] eqn:Eh; [|reflexivity].
  destruct (Hshape _ _ Eh) as [[_ [f' ->]]|[Hk _]]; [|discriminate].
  reflexivity.
Qed.

Lemma add_sensors_other render x acc s w :
  isinstance_dict x = false ->
  res (add_sensors render x acc s w) = Raise AttributeError.
Proof. destruct x; try discriminate; reflexivity. Qed.

Lemma add_humidifier_mapping render d acc s w :
  exists acc', res (add_humidifier render (PDict d) acc s w) = Ok acc'.
Proof.
  unfold add_humidifier. cbn [py_get lift]. unfold bind at 1 2, ret at 1 2.
  destruct (truthy (default PNone (d !! "uniqueId"))); cbn [negb];
    [|eexists; reflexivity].
  unfold try_except, bind at 1.
  destruct (get_actions _ s w) as [[[[|a l]|e] s1] w1]; eexists; reflexivity.
Qed.

Lemma add_humidifier_other render x acc s w :
  isinstance_dict x = false ->
  res (add_humidifier render x acc s w) = Raise AttributeError.
Proof. destruct x; try discriminate; reflexivity. Qed.

Lemma for_each_invariant {S} (P : S -> Prop) (body : pyval -> S -> M S) l :
  (forall x acc s w acc', P acc -> res (body x acc s w) = Ok acc' -> P acc') ->
  forall acc s w acc',
    P acc -> res (for_each body l acc s w) = Ok acc' -> P acc'.
Proof.
  intros Hb. induction l as [|x l IH]; intros acc s w acc' HP; cbn.
  - intros H. injection H as <-. exact HP.
  - unfold bind. destruct (body x acc s w) as [[[a|e] s1] w1] eqn:E; [|discriminate].
    apply IH. eapply Hb; [exact HP|rewrite E; reflexivity].
Qed.

Lemma for_each_completes {S} (body : pyval -> S -> M S) l :
  (forall x acc s w, isinstance_dict x = true ->
                     exists acc', res (body x acc s w) = Ok acc') ->
  (forall x acc s w, isinstance_dict x = false ->
                     exists e, res (body x acc s w) = Raise e) ->
  forall acc s w,
    (exists acc', res (for_each body l acc s w) = Ok acc') <->
    Forall (fun d => isinstance_dict d = true) l.
Proof.
  intros Hd Ho. induction l as [|x l IH]; intros acc s w; cbn.
  - split; [constructor|eexists; reflexivity].
  - unfold bind. destruct (isinstance_dict x) eqn:Ex.
    + destruct (Hd x acc s w Ex) as [a Ha].
      destruct (body x acc s w) as [[r s1] w1]. cbn in Ha. subst r.
      rewrite IH. split; [intros H; constructor; assumption|].
      intros H. inversion H; assumption.
    + destruct (Ho x acc s w Ex) as [e He].
      destruct (body x acc s w) as [[r s1] w1]. cbn in He. subst r.
      split; [intros [a Ha]; discriminate|].
      intros H. inversion H; congruence.
Qed.

(** X15.  The sensor platform hands over sensors in pairs: whatever the
    service answers, the list is made of a temperature sensor followed by
    the humidity sensor of the same device, device after device; no device
    gets one sensor without the other. *)
Theorem sensors_come_in_pairs render s w l :
  res (sensor_setup render s w) = Ok l -> paired l.
Proof.
  unfold sensor_setup, bind.
  destruct (get_devices s w) as [[[devices|e] s0] w0]; [|discriminate].
  unfold lift. destruct (py_iter devices) as [ds|e]; [|discriminate].
  cbn [ret].
  destruct (for_each (add_sensors render) ds [] s0 w0) as [[[acc|e] s1] w1] eqn:E;
    [|discriminate].
  assert (Hp : paired acc).
  { eapply (for_each_invariant paired (add_sensors render) ds);
      [|apply paired_nil|rewrite E; reflexivity].
    clear. intros x acc s w acc' HP.
    destruct (isinstance_dict x) eqn:Ex.
    - destruct x; try discriminate. rewrite add_sensors_mapping.
      intros H. injection H as <-.
      destruct (_ && _)%bool; [apply paired_app|]; assumption.
    - rewrite add_sensors_other by assumption. discriminate. }
  destruct acc; cbn; intros H; injection H as <-; exact Hp.
Qed.

Lemma sensors_come_in_pairs_witness :
  paired [new_sensor CondairTemperatureSensor (PStr "A1") (PStr "Bath");
          new_sensor CondairHumiditySensor (PStr "A1") (PStr "Bath")].
Proof.
  apply (sensors_come_in_pairs render0 signed_in two_devices_world).
  vm_compute. reflexivity.
Defined.

(** X16.  A device whose snapshot lacks the temperature or the humidity, or
    whose snapshot cannot be fetched at all, gets no sensor, and the loop
    goes on: the body returns the list as it was and lets no exception out. *)
Theorem incomplete_device_gets_no_sensor render d acc s w :
  complete (res (get_latest_datapoints
                   (format_value render (default PNone (d !! "uniqueId"))) s w)) = false ->
  res (add_sensors render (PDict d) acc s w) = Ok acc.
Proof.
  intros H. rewrite add_sensors_mapping. cbv zeta. rewrite H, andb_false_r.
  reflexivity.
Qed.

(** The hall device reports its humidity only. *)
Lemma incomplete_device_gets_no_sensor_witness :
  res (add_sensors render0
         (PDict {[ "uniqueId" := PStr "B2"; "instanceName" := PStr "Hall" ]})
         [] signed_in two_devices_world) = Ok [].
Proof.
  apply (incomplete_device_gets_no_sensor render0). vm_compute. reflexivity.
Defined.

Lemma sensor_loop_completes render ds acc s w :
  (exists acc', res (for_each (add_sensors render) ds acc s w) = Ok acc') <->
  Forall (fun d => isinstance_dict d = true) ds.
Proof.
  apply for_each_completes; clear acc s w.
  - intros x acc s w H; destruct x; try discriminate. eexists. apply add_sensors_mapping.
  - intros x acc s w H. eexists. apply add_sensors_other, H.
Qed.

Lemma humidifier_loop_completes render ds acc s w :
  (exists acc', res (for_each (add_humidifier render) ds acc s w) = Ok acc') <->
  Forall (fun d => isinstance_dict d = true) ds.
Proof.
  apply for_each_completes; clear acc s w.
  - intros x acc s w H; destruct x; try discriminate. apply add_humidifier_mapping.
  - intros x acc s w H. eexists. apply add_humidifier_other, H.
Qed.

(** A set-up completes when its loop does. *)
Lemma setup_completes {S} (loop : list pyval -> M (list S)) (after : list S -> M unit)
    devices s0 w0 :
  (forall acc s w, exists s' w', after acc s w = (Ok tt, s', w')) ->
  (forall ds, (exists acc, res (loop ds s0 w0) = Ok acc) <->
              Forall (fun d => isinstance_dict d = true) ds) ->
  (exists l, res ((do l <- lift (py_iter devices);
                   do acc <- loop l;
                   after acc ;; ret acc) s0 w0) = Ok l) <-> mappings devices.
Proof.
  intros Hafter Hloop. unfold mappings, bind, lift.
  destruct (py_iter devices) as [ds|e]; cbn [ret raise].
  - specialize (Hloop ds).
    destruct (loop ds s0 w0) as [[[acc|e] s1] w1]; cbn [res fst] in *.
    + destruct (Hafter acc s1 w1) as (s2 & w2 & ->). cbn.
      split; [intros _; exists ds; split; [reflexivity|apply Hloop; eauto]|eauto].
    + split; [intros [l H]; discriminate|].
      intros (l & Hl & Hf). injection Hl as <-. apply Hloop in Hf.
      destruct Hf as [acc Hf]. discriminate.
  - split; [intros [l H]; discriminate|intros (l & H & _); discriminate].
Qed.

(** X17.  Once the device listing has been fetched, either platform
    completes its set-up exactly when the listing can be iterated and every
    element visited is a mapping: no failure of a per-device fetch stops
    it, and a listing of any other shape makes it raise. *)
Theorem platform_setup_completes render s w devices :
  res (get_devices s w) = Ok devices ->
  ((exists l, res (sensor_setup render s w) = Ok l) <-> mappings devices) /\
  ((exists l, res (humidifier_setup render s w) = Ok l) <-> mappings devices).
Proof.
  intros Hd. unfold sensor_setup, humidifier_setup. unfold bind at 1 5.
  destruct (get_devices s w) as [[r s0] w0]. cbn in Hd. subst r. split.
  - apply (setup_completes (fun l => for_each (add_sensors render) l [])
             (fun acc => match acc with
                         | _ :: _ => log INFO "Adding %d sensor entities."
                         | [] => log WARNING "No sensor entities added; no valid devices found."
                         end)).
    + intros [|a acc] s1 w1; eexists _, _; reflexivity.
    + intros ds. apply sensor_loop_completes.
  - apply (setup_completes (fun l => for_each (add_humidifier render) l [])
             (fun acc => match acc with
                         | _ :: _ => log INFO "Adding %d humidifier entities."
                         | [] => log WARNING "No humidifier entities added; no valid devices found."
                         end)).
    + intros [|a acc] s1 w1; eexists _, _; reflexivity.
    + intros ds. apply humidifier_loop_completes.
Qed.

(** With the listing of two devices both platforms complete; with a
    listing wrapped in a further mapping the sensor platform raises. *)
Lemma platform_setup_completes_witness :
  (exists l, res (sensor_setup render0 signed_in two_devices_world) = Ok l) /\
  (exists l, res (humidifier_setup render0 signed_in two_devices_world) = Ok l) /\
  res (sensor_setup render0 signed_in wrapped_listing_world) = Raise AttributeError.
Proof.
  destruct (platform_setup_completes render0 signed_in two_devices_world two_devices)
    as [H1 H2]; [vm_compute; reflexivity|].
  assert (Hm : mappings two_devices).
  { eexists. split; [reflexivity|]. repeat constructor. }
  split; [apply H1, Hm|]. split; [apply H2, Hm|]. vm_compute. reflexivity.
Defined.
(** X18.  When the update of a sensor returns, the client has returned a
    snapshot, and what the sensor shows is the reading of its class in that
    snapshot, [None] when the snapshot has none; so the value is a float or
    [None].  The update changes nothing else of the sensor. *)
Theorem sensor_shows_float_or_nothing render x s w x' :
  res (sensor_update render x s w) = Ok x' ->
  exists data,
    res (get_latest_datapoints (format_value render (_unique_id x)) s w) = Ok data /\
    native_value x' = default PNone (data !! snapshot_key (class_of x)) /\
    class_of x' = class_of x /\ _unique_id x' = _unique_id x /\
    _device_name x' = _device_name x /\
    (native_value x' = PNone \/ exists f, native_value x' = PFloat f).
Proof.
  unfold sensor_update, bind.
  destruct (get_latest_datapoints _ s w) as [[[data|e] s1] w1] eqn:E; [|discriminate].
  assert (Hshape : well_shaped data)
    by (eapply fetched_snapshot_shape; rewrite E; reflexivity).
  cbn. intros H. injection H as <-. cbn. exists data. repeat split.
  destruct (data !! snapshot_key (class_of x)) as [v|] eqn:Ev; cbn; [|auto].
  right. destruct (Hshape _ _ Ev) as [[_ Hf]|[Hk _]]; [exact Hf|].
  destruct (class_of x); discriminate.
Qed.

(** The temperature sensor of the bath device shows the 21.0 that the
    snapshot holds. *)
Lemma sensor_shows_float_or_nothing_witness :
  exists data,
    res (get_latest_datapoints "A1" signed_in two_devices_world) = Ok data /\
    data !! "temperature_avg" = Some (PFloat (Z2F 21)) /\
    native_value
      (mkSensor CondairTemperatureSensor (PStr "A1") (PStr "Bath") (PFloat (Z2F 21)))
    = default PNone (data !! "temperature_avg").
Proof.
  destruct (sensor_shows_float_or_nothing render0
              (new_sensor CondairTemperatureSensor (PStr "A1") (PStr "Bath"))
              signed_in two_devices_world
              (mkSensor CondairTemperatureSensor (PStr "A1") (PStr "Bath")
                 (PFloat (Z2F 21))))
    as (data & Hd & Hv & _); [vm_compute; reflexivity|].
  exists data. split; [exact Hd|]. split; [|exact Hv].
  cbn [format_value new_sensor _unique_id] in Hd.
  assert (Hd' : res (get_latest_datapoints "A1" signed_in two_devices_world)
                = Ok {[ "temperature_avg" := PFloat (Z2F 21);
                        "humidity_avg" := PFloat F45_2 ]})
    by (vm_compute; reflexivity).
  rewrite Hd' in Hd. injection Hd as <-. vm_compute. reflexivity.
Defined.

End PlatformSetup.

(** * Parent instances *)

Lemma same_number_sym a b : same_number a b = same_number b a.
Proof.
  destruct a as [m1 e1|s1|], b as [m2 e2|s2|]; cbn; try reflexivity.
  - rewrite (Z.min_comm e2 e1). apply Z.eqb_sym.
  - destruct s1, s2; reflexivity.
Qed.

Lemma same_key_sym a b : same_key a b = same_key b a.
Proof.
  destruct a, b; cbn; try reflexivity;
    repeat match goal with f : spec_float |- _ => destruct f end; cbn;
    try reflexivity; try apply String.eqb_sym;
    try (rewrite (Z.min_comm e0 e); apply Z.eqb_sym);
    try (rewrite Z.min_comm; apply Z.eqb_sym);
    try apply Z.eqb_sym; try (destruct s, s0; reflexivity).
Qed.

Lemma same_number_refl a : same_number a a = true.
Proof.
  destruct a as [m e|s|]; cbn; [apply Z.eqb_refl|destruct s; reflexivity|reflexivity].
Qed.

Lemma same_key_refl k : hashable k = true -> same_key k k = true.
Proof.
  destruct k; cbn; try discriminate; intros _;
    repeat match goal with f : spec_float |- _ => destruct f end; cbn;
    try reflexivity; try apply Z.eqb_refl; try apply String.eqb_refl;
    try (destruct s; reflexivity).
Qed.

Lemma ForallOrdPairs_snoc {A} (R : A -> A -> Prop) l x :
  ForallOrdPairs R l -> Forall (fun a => R a x) l -> ForallOrdPairs R (l ++ [x]).
Proof.
  induction 1 as [|a l Ha Hl IH]; cbn; intros Hx.
  - repeat constructor.
  - inversion Hx; subst. constructor; [|apply IH; assumption].
    apply Forall_app. split; [assumption|repeat constructor; assumption].
Qed.

Lemma group_parent_grouped device al al' :
  group_parent device al = Ok al' ->
  grouped al ->
  grouped al' /\ (forall kv, In kv al -> In kv al') /\ covers al' device.
Proof.
  unfold group_parent, rbind, key_in.
  destruct (py_get device "parentSerialNumber" PNone) as [k|e] eqn:Ek; [|discriminate].
  destruct (py_get device "parentInstanceName" PNone) as [n|e]; [|discriminate].
  destruct (hashable k) eqn:Hk; [|discriminate].
  destruct (existsb _ al) eqn:Ex; cbn [negb]; intros H [Hv Hd]; injection H as <-.
  - split; [split; assumption|]. split; [auto|].
    intros k' Hk'. rewrite Ek in Hk'. injection Hk' as <-.
    apply existsb_exists in Ex. destruct Ex as (kv & Hin & Hs). eauto.
  - split; [split|split].
    + apply Forall_app. split; [assumption|]. constructor; [|constructor].
      cbn. rewrite lookup_insert. reflexivity.
    + apply ForallOrdPairs_snoc; [assumption|].
      apply List.Forall_forall. intros kv Hin. cbn [fst].
      rewrite same_key_sym.
      destruct (same_key k (fst kv)) eqn:Es; [|reflexivity].
      exfalso. apply (eq_true_false_abs _ eq_refl).
      rewrite <- Ex. symmetry. apply existsb_exists. eauto.
    + intros kv Hin. apply in_or_app. auto.
    + intros k' Hk'. rewrite Ek in Hk'. injection Hk' as <-. eexists. split.
      * apply in_or_app. right. left. reflexivity.
      * apply same_key_refl, Hk.
Qed.

Lemma group_parents_grouped devices : forall al al',
  group_parents devices al = Ok al' ->
  grouped al ->
  grouped al' /\ (forall kv, In kv al -> In kv al') /\
  (forall device, In device devices -> covers al' device).
Proof.
  induction devices as [|d devices IH]; intros al al'; cbn [group_parents].
  - intros H Hg. injection H as <-. split; [assumption|]. split; [auto|].
    intros device [].
  - unfold rbind. destruct (group_parent d al) as [al1|e] eqn:E1; [|discriminate].
    intros H Hg.
    destruct (group_parent_grouped _ _ _ E1 Hg) as (Hg1 & Hin1 & Hc1).
    destruct (IH _ _ H Hg1) as (Hg' & Hin' & Hc').
    split; [assumption|]. split; [auto|].
    intros device [<-|Hd]; [|auto].
    intros k Hk. destruct (Hc1 k Hk) as (kv & Hkv & Hs). eauto.
Qed.

Lemma grouped_distinct al : grouped al -> distinct_parents (map snd al).
Proof.
  intros [Hv Hd]. unfold distinct_parents.
  induction Hd as [|a l Ha Hl IH]; cbn; [constructor|].
  inversion Hv as [|? ? Hva Hvl]; subst.
  constructor; [|apply IH; assumption].
  apply List.Forall_forall. intros q Hq. apply in_map_iff in Hq.
  destruct Hq as (b & <- & Hb).
  rewrite Hva. rewrite List.Forall_forall in Hvl, Ha.
  rewrite (Hvl b Hb). apply Ha, Hb.
Qed.

Lemma get_parent_instances_unfold s w :
  res (get_parent_instances s w) =
  rbind (res (_get_request parents_endpoint s w)) (fun response =>
  rbind (py_iter response) (fun devices =>
  rbind (group_parents devices []) (fun parent_instances =>
  Ok (map snd parent_instances)))).
Proof.
  unfold get_parent_instances, bind, rbind.
  destruct (_get_request parents_endpoint s w) as [[[response|e] s1] w1];
    [|reflexivity].
  cbn [res fst]. unfold lift.
  destruct (py_iter response) as [devices|e]; [|reflexivity]. cbn [ret].
  destruct (group_parents devices []) as [al|e]; reflexivity.
Qed.

(** X19.  The list of parent instances has one element for each parent:
    no two elements stand for the same [parentInstanceNumber], also when
    the service writes one number as an integer and as a float, and every
    device listed finds its parent in the result. *)
Theorem parents_are_distinct s w response devices l :
  res (_get_request parents_endpoint s w) = Ok response ->
  py_iter response = Ok devices ->
  res (get_parent_instances s w) = Ok l ->
  distinct_parents l /\
  (forall device k,
     In device devices ->
     py_get device "parentSerialNumber" PNone = Ok k ->
     exists p, In p l /\ same_key k (number_of p) = true).
Proof.
  intros Hr Hi. rewrite get_parent_instances_unfold, Hr. cbn [rbind].
  rewrite Hi. cbn [rbind].
  destruct (group_parents devices []) as [al|e] eqn:E; [|discriminate].
  intros H. injection H as <-.
  assert (Hg0 : grouped []) by (split; constructor).
  destruct (group_parents_grouped _ _ _ E Hg0) as (Hg & _ & Hc).
  split; [apply grouped_distinct, Hg|].
  intros device k Hd Hk. destruct (Hc device Hd k Hk) as (kv & Hin & Hs).
  exists (snd kv). split; [apply in_map, Hin|].
  destruct Hg as [Hv _]. rewrite List.Forall_forall in Hv.
  rewrite (Hv kv Hin). exact Hs.
Qed.

(** Two households come out of the three devices. *)
Lemma parents_are_distinct_witness : distinct_parents households.
Proof.
  apply (parents_are_distinct signed_in households_world
           (PList household_devices) household_devices households);
    vm_compute; reflexivity.
Defined.

(** X20.  An answer that is a mapping is iterated by its keys: with at
    least one key [get_parent_instances] raises [AttributeError], so it
    fails on the very envelope from which [get_devices] takes its [data];
    with no key, which is also what a non-JSON answer is read as, it
    returns the empty list. *)
Theorem parents_of_a_mapping s w d :
  res (_get_request parents_endpoint s w) = Ok (PDict d) ->
  (d = ∅ -> res (get_parent_instances s w) = Ok []) /\
  (d <> ∅ -> res (get_parent_instances s w) = Raise AttributeError).
Proof.
  intros Hr. rewrite get_parent_instances_unfold, Hr. cbn [rbind py_iter].
  destruct (map_to_list d) as [|[k v] rest] eqn:E.
  - apply map_to_list_empty_iff in E. subst d.
    split; [reflexivity|congruence].
  - split; [|reflexivity].
    intros ->. rewrite map_to_list_empty in E. discriminate.
Qed.

Lemma parents_of_a_mapping_witness :
  res (get_parent_instances signed_in enveloped_households_world)
  = Raise AttributeError.
Proof.
  apply (parents_of_a_mapping signed_in enveloped_households_world
           {[ "data" := PList household_devices ]}).
  - vm_compute. reflexivity.
  - intros H.
    assert (H' : ({[ "data" := PList household_devices ]} : gmap string pyval) !! "data"
                 = None) by (rewrite H; apply lookup_empty).
    vm_compute in H'. discriminate.
Defined.

